(** * AI Frontend Builder: stream demuxer, preview composition and
      file-set operations

    A shallow embedding of the pure logic of [App.tsx] (the stream
    demultiplexer inside [handleSubmit], the [htmlContent] memo, the
    active-file reconciliation effect, [resetProject] and
    [handleFetchSnippets]), of [components/CodeWorkspace.tsx]
    ([handleCreateFile], [handleDeleteFile]) and of
    [components/Modals.tsx] ([NewFileModal.handleSubmit]).

    React state cells become fields of a record and every [setX(value)]
    call becomes a setter on that record.  A functional updater
    ([setFiles(prev => ..)]) is not run by the call that passes it: React
    (version 18 and later, which batches the updates of asynchronous code
    too) puts it in a queue and runs the queue, in order, when it renders
    next.  The model keeps that queue, and a render is an event of its
    own.  The updater of the formatting pass at the end of
    [handleSubmit] is an [async] function and so returns a promise: the
    model records what the render that follows makes of it.  The
    persistence to local storage is left out. *)

From Stdlib Require Import Ascii String.
From Stdlib Require Import List Bool Arith NArith Lia.
From Equations.Prop Require Import Equations Logic.
Import ListNotations.
Open Scope list_scope.

(* ===================================================================== *)
(** ** JavaScript strings *)
(* ===================================================================== *)

(** A JavaScript string is a finite sequence of UTF-16 code units. *)
Module Js.

Definition char16 := N.
Definition jsstring := list char16.

(** ASCII literals of the source, as code-unit sequences. *)
Definition lit (s : string) : jsstring :=
  map N_of_ascii (list_ascii_of_string s).

Definition NEWLINE : char16 := 10%N.
Definition DQUOTE : char16 := 34%N.
Definition DOLLAR : char16 := 36%N.
Definition AMPERSAND : char16 := 38%N.
Definition QUOTE : char16 := 39%N.
Definition BACKTICK : char16 := 96%N.

(** [s === t] on strings. *)
Fixpoint str_eqb (s t : jsstring) : bool :=
  match s, t with
  | [], [] => true
  | c :: s', d :: t' => N.eqb c d && str_eqb s' t'
  | _, _ => false
  end.

(** A string is truthy when it is not empty. *)
Definition truthy (s : jsstring) : bool :=
  match s with [] => false | _ :: _ => true end.

(** A [string | null] local is truthy when it holds a non-empty string. *)
Definition truthy_opt (o : option jsstring) : bool :=
  match o with Some s => truthy s | None => false end.

(** [s.startsWith(pat)]. *)
Fixpoint startsWith (pat s : jsstring) : bool :=
  match pat with
  | [] => true
  | p :: pat' =>
      match s with
      | [] => false
      | c :: s' => N.eqb p c && startsWith pat' s'
      end
  end.

(** [s.substring(start)] and [s.substring(start, end)], for
    [start <= end]. *)
Definition substring_from (start : nat) (s : jsstring) : jsstring :=
  skipn start s.

Definition substring (start stop : nat) (s : jsstring) : jsstring :=
  firstn (stop - start) (skipn start s).

(** [s.endsWith(suffix)]. *)
Definition endsWith (suffix s : jsstring) : bool :=
  (length suffix <=? length s) &&
  str_eqb (substring_from (length s - length suffix) s) suffix.

(** [s.indexOf(pat)]; [None] stands for [-1]. *)
Fixpoint indexOf (pat s : jsstring) {struct s} : option nat :=
  if startsWith pat s then Some 0
  else match s with
       | [] => None
       | _ :: s' => option_map S (indexOf pat s')
       end.

(** ECMAScript WhiteSpace and LineTerminator code units, the set removed
    by [String.prototype.trim]. *)
Definition isWhiteSpace (c : char16) : bool :=
  existsb (N.eqb c)
    [ 9; 10; 11; 12; 13; 32; 160; 5760;
      8192; 8193; 8194; 8195; 8196; 8197; 8198; 8199; 8200; 8201; 8202;
      8232; 8233; 8239; 8287; 12288; 65279 ]%N.

Fixpoint trimStart (s : jsstring) : jsstring :=
  match s with
  | [] => []
  | c :: s' => if isWhiteSpace c then trimStart s' else s
  end.

Definition trimEnd (s : jsstring) : jsstring := rev (trimStart (rev s)).

Definition trim (s : jsstring) : jsstring := trimEnd (trimStart s).

(** [parts.join(sep)]. *)
Fixpoint join (sep : jsstring) (parts : list jsstring) : jsstring :=
  match parts with
  | [] => []
  | [p] => p
  | p :: rest => p ++ sep ++ join sep rest
  end.

(** GetSubstitution of ECMA-262 for a match without capture groups: in the
    replacement text [$$] stands for a dollar sign, [$&] for the matched
    text, [$`] for the text before the match and [$'] for the text after
    it; every other dollar sign is literal. *)
Fixpoint getSubstitution (matched before after replacement : jsstring)
  : jsstring :=
  match replacement with
  | [] => []
  | c :: r =>
      if N.eqb c DOLLAR then
        match r with
        | [] => [c]
        | d :: r' =>
            if N.eqb d DOLLAR then
              DOLLAR :: getSubstitution matched before after r'
            else if N.eqb d AMPERSAND then
              matched ++ getSubstitution matched before after r'
            else if N.eqb d BACKTICK then
              before ++ getSubstitution matched before after r'
            else if N.eqb d QUOTE then
              after ++ getSubstitution matched before after r'
            else c :: getSubstitution matched before after r
        end
      else c :: getSubstitution matched before after r
  end.

(** [s.replace(/pat/, replacement)] for a regular expression that is a
    plain literal without flags: only the first match is replaced, and the
    replacement text goes through [getSubstitution]. *)
Definition replace (pat replacement s : jsstring) : jsstring :=
  match indexOf pat s with
  | None => s
  | Some i =>
      let before := substring 0 i s in
      let after := substring_from (i + length pat) s in
      before ++ getSubstitution pat before after replacement ++ after
  end.

(** [xs.some(p)]. *)
Definition some {A : Type} (p : A -> bool) (xs : list A) : bool :=
  existsb p xs.

(** [o || ''] for [o : string | undefined]. *)
Definition orEmpty (o : option jsstring) : jsstring :=
  match o with
  | Some s => if truthy s then s else []
  | None => []
  end.

End Js.

Import Js.

(* ===================================================================== *)
(** ** Application state *)
(* ===================================================================== *)

(** [FileData] of [CodeWorkspace.tsx]. *)
Record FileData := mkFile { fileName : jsstring; content : jsstring }.

(** The two [let] variables of [handleSubmit].  The arrow functions handed
    to [setFiles] close over these variables, not over their values. *)
Record Locals := mkLocals {
  currentFileName : option jsstring;
  buffer : jsstring
}.

(** An updater function passed to [setFiles].  React calls it while it
    renders, with the pending value of [files]; a closure that mentions
    [currentFileName] or [buffer] reads the value the variable has at that
    moment, so an updater is a function of the locals as well.  The second
    component of the result is the argument of a [setActiveFileName] call
    made inside the updater, if any. *)
Definition Updater : Type :=
  Locals -> list FileData -> list FileData * option jsstring.

(** The state cells of [App] that the operations below touch, the queue
    of [setFiles] updaters React has not applied yet, and the locals of
    the running [handleSubmit]. *)
Record App := mkApp {
  prompt : jsstring;
  files : list FileData;
  activeFileName : jsstring;
  isLoading : bool;
  error : option jsstring;
  queue : list Updater;
  vars : Locals
}.

Definition setPrompt (p : jsstring) (st : App) : App :=
  mkApp p (files st) (activeFileName st) (isLoading st) (error st)
        (queue st) (vars st).

Definition setActiveFileName (n : jsstring) (st : App) : App :=
  mkApp (prompt st) (files st) n (isLoading st) (error st)
        (queue st) (vars st).

Definition setIsLoading (b : bool) (st : App) : App :=
  mkApp (prompt st) (files st) (activeFileName st) b (error st)
        (queue st) (vars st).

Definition setError (e : option jsstring) (st : App) : App :=
  mkApp (prompt st) (files st) (activeFileName st) (isLoading st) e
        (queue st) (vars st).

(** [setFiles(updater)]: the updater joins the queue.  When nothing else
    is pending for the component, React may run the updater at the call
    already; it then reads the locals as they are at the call.  For the
    updaters of this file that gives another file set only if
    [currentFileName] is assigned between the call and the render, and
    never for an updater that follows another update of the same turn:
    the sample streams below start with a marker line, whose updater
    reads no local. *)
Definition setFiles (u : Updater) (st : App) : App :=
  mkApp (prompt st) (files st) (activeFileName st) (isLoading st) (error st)
        (queue st ++ [u]) (vars st).

(** [setFiles(value)]. *)
Definition setFilesTo (fs : list FileData) (st : App) : App :=
  setFiles (fun _ _ => (fs, None)) st.

Definition set_vars (l : Locals) (st : App) : App :=
  mkApp (prompt st) (files st) (activeFileName st) (isLoading st) (error st)
        (queue st) l.

Definition set_currentFileName (o : option jsstring) (st : App) : App :=
  set_vars (mkLocals o (buffer (vars st))) st.

Definition set_buffer (b : jsstring) (st : App) : App :=
  set_vars (mkLocals (currentFileName (vars st)) b) st.

(** One queued updater applied to the pending [files] and active name. *)
Definition apply_updater (env : Locals)
    (acc : list FileData * jsstring) (u : Updater)
  : list FileData * jsstring :=
  let r := u env (fst acc) in
  (fst r, match snd r with Some n => n | None => snd acc end).

Definition flush (env : Locals) (us : list Updater)
    (acc : list FileData * jsstring) : list FileData * jsstring :=
  fold_left (apply_updater env) us acc.

(** A render of [App]: React applies the queued updaters in order. *)
Definition render (st : App) : App :=
  let r := flush (vars st) (queue st) (files st, activeFileName st) in
  mkApp (prompt st) (fst r) (snd r) (isLoading st) (error st) [] (vars st).

(* ===================================================================== *)
(** ** The stream demuxer of [handleSubmit] *)
(* ===================================================================== *)

Definition MARKER : jsstring := lit ">>>FILE:".

(** [f.fileName === currentFileName] for [currentFileName : string | null]. *)
Definition named_by (o : option jsstring) (f : FileData) : bool :=
  match o with
  | Some n => str_eqb (fileName f) n
  | None => false
  end.

(** [prevFiles.map(f => f.fileName === currentFileName
                          ? { ...f, content: f.content + text } : f)]. *)
Definition append_to (o : option jsstring) (text : jsstring)
    (prevFiles : list FileData) : list FileData :=
  map (fun f => if named_by o f
                then mkFile (fileName f) (content f ++ text)
                else f) prevFiles.

(** The updater of a marker line; [newFileName] is a [const]. *)
Definition add_if_absent (newFileName : jsstring)
    (prevFiles : list FileData) : list FileData :=
  if some (fun f => str_eqb (fileName f) newFileName) prevFiles
  then prevFiles
  else prevFiles ++ [mkFile newFileName []].

Definition markerUpdater (newFileName : jsstring) : Updater :=
  fun _ prevFiles => (add_if_absent newFileName prevFiles, None).

(** The updater of a content line; [line] is a [const], [currentFileName]
    is the [let] variable. *)
Definition lineUpdater (line : jsstring) : Updater :=
  fun env prevFiles =>
    (append_to (currentFileName env) (line ++ [NEWLINE]) prevFiles, None).

(** The updater of the final remainder; both [currentFileName] and
    [buffer] are [let] variables. *)
Definition remainderUpdater : Updater :=
  fun env prevFiles =>
    (append_to (currentFileName env) (buffer env) prevFiles, None).

(** The body of the [while] loop for one extracted line. *)
Definition process_line (line : jsstring) (st : App) : App :=
  if startsWith MARKER line then
    let newFileName := trim (substring_from (length MARKER) line) in
    if truthy newFileName then
      setActiveFileName newFileName
        (setFiles (markerUpdater newFileName)
           (set_currentFileName (Some newFileName) st))
    else st
  else if truthy_opt (currentFileName (vars st)) then
    setFiles (lineUpdater line) st
  else st.

(** [while ((lineEndIndex = buffer.indexOf('\n')) !== -1) { ... }]. *)
Equations? drain (st : App) : App by wf (length (buffer (vars st))) lt :=
  drain st with inspect (indexOf [NEWLINE] (buffer (vars st))) => {
    | exist _ (Some lineEndIndex) _ =>
        drain (process_line
                 (substring 0 lineEndIndex (buffer (vars st)))
                 (set_buffer
                    (substring_from (lineEndIndex + 1) (buffer (vars st)))
                    st));
    | exist _ None _ => st }.
Proof.
  assert (Hbuf : forall l s, buffer (vars (process_line l s)) = buffer (vars s)).
  { intros l s. unfold process_line.
    destruct (startsWith MARKER l);
      [destruct (truthy _) | destruct (truthy_opt _)]; reflexivity. }
  assert (Hidx : forall s i, indexOf [NEWLINE] s = Some i -> i < length s).
  { induction s as [|c s IH]; intros i Hi; cbn [indexOf startsWith] in Hi.
    - discriminate.
    - destruct (N.eqb NEWLINE c); cbn [andb] in Hi.
      + inversion Hi. cbn [length]. lia.
      + destruct (indexOf [NEWLINE] s) as [j|]; cbn [option_map] in Hi;
          [|discriminate].
        inversion Hi. cbn [length]. specialize (IH j eq_refl). lia. }
  rewrite Hbuf. cbn [set_buffer set_vars vars buffer]. unfold substring_from.
  rewrite length_skipn. apply Hidx in e. lia.
Qed.

(** The body of [for await (const chunk of stream)]. *)
Definition feed (chunk : jsstring) (st : App) : App :=
  drain (set_buffer (buffer (vars st) ++ chunk) st).

(** The code after the loop: the remainder of the buffer. *)
Definition finish (st : App) : App :=
  if truthy_opt (currentFileName (vars st))
     && (0 <? length (buffer (vars st)))
  then setFiles remainderUpdater st
  else st.

(** What happens while [handleSubmit] runs: a chunk arrives and is
    processed synchronously, or React renders at one of the [await]s. *)
Inductive Event :=
| Chunk (text : jsstring)
| Render.

Definition step (st : App) (e : Event) : App :=
  match e with
  | Chunk text => feed text st
  | Render => render st
  end.

Definition consume (events : list Event) (st : App) : App :=
  fold_left step events st.

(** A value caught by [catch (e)]. *)
Inductive Thrown :=
| ErrorObject (message : jsstring)
| OtherValue.

(** [e instanceof Error ? e.message : 'An unknown error occurred.']. *)
Definition errorMessage (e : Thrown) : jsstring :=
  match e with
  | ErrorObject message => message
  | OtherValue => lit "An unknown error occurred."
  end.

Definition generationError (e : Thrown) : jsstring :=
  lit "Failed to generate code: " ++ errorMessage e
  ++ lit ". Please check your API key and try again.".

(** The statements of [handleSubmit] before the [try] block, and its two
    locals at their initial values. *)
Definition startGeneration (st : App) : App :=
  set_vars (mkLocals None [])
    (setFilesTo [] (setError None (setIsLoading true st))).

(** What a call of [handleSubmit] leaves: the cells and the queue of
    [App], and whether the updater of its formatting pass has been put at
    the end of that queue. *)
Record Submitted := mkSubmitted {
  cells : App;
  formattingQueued : bool
}.

(** [handleSubmit].  The stream is given by what happens until it ends,
    and by how it ends: normally ([None]) or with a thrown value.  The
    [finally] block runs in the same turn as the code after the loop or
    the [catch] block: [setIsLoading(false)], then [setFiles] with the
    [async] updater of the formatting pass. *)
Definition handleSubmit (events : list Event) (ending : option Thrown)
    (st : App) : Submitted :=
  if negb (truthy (trim (prompt st))) || isLoading st
  then mkSubmitted st false
  else
    let st1 := consume events (startGeneration st) in
    let st2 :=
      match ending with
      | None => finish st1
      | Some e => setError (Some (generationError e)) st1
      end in
    mkSubmitted (setIsLoading false st2) true.

(** What the user has on the screen after a render. *)
Inductive Screen :=
| Displayed (st : App)
| Blank (currentFiles : list FileData).

(** The render that follows a call of [handleSubmit].  React applies the
    queue.  The updater of the formatting pass comes last; being [async],
    it returns a promise for the array [currentFiles] it receives, and
    React stores that promise in [files].  [App] then calls [files.find]
    in the [htmlContent] memo, which throws because a promise has no
    [find], and React unmounts the application: neither the files nor an
    error message are on the screen. *)
Definition commit (s : Submitted) : Screen :=
  let st := render (cells s) in
  if formattingQueued s then Blank (files st) else Displayed st.

(* ===================================================================== *)
(** ** Preview composition: the [htmlContent] memo *)
(* ===================================================================== *)

Definition HEAD_CLOSE : jsstring := lit "</head>".
Definition BODY_CLOSE : jsstring := lit "</body>".

Definition NO_INDEX : jsstring :=
  lit "<html><body><p>No index.html file found.</p></body></html>".

Definition isHtml (f : FileData) : bool := endsWith (lit ".html") (fileName f).
Definition isCss (f : FileData) : bool := endsWith (lit ".css") (fileName f).
Definition isJs (f : FileData) : bool := endsWith (lit ".js") (fileName f).

Definition cssContent (fs : list FileData) : jsstring :=
  join [NEWLINE] (map content (filter isCss fs)).

Definition jsContent (fs : list FileData) : jsstring :=
  join (lit ";" ++ [NEWLINE]) (map content (filter isJs fs)).

Definition htmlContent (fs : list FileData) : jsstring :=
  match find isHtml fs with
  | None => NO_INDEX
  | Some htmlFile =>
      let processedHtml := content htmlFile in
      let cssFiles := filter isCss fs in
      let processedHtml :=
        if 0 <? length cssFiles then
          replace HEAD_CLOSE
            (lit "<style>" ++ cssContent fs ++ lit "</style></head>")
            processedHtml
        else processedHtml in
      let jsFiles := filter isJs fs in
      let processedHtml :=
        if 0 <? length jsFiles then
          replace BODY_CLOSE
            (lit "<script>" ++ jsContent fs ++ lit "</script></body>")
            processedHtml
        else processedHtml in
      processedHtml
  end.

(** *** The composition as the specification words it

    "Inject [text] immediately before the first [tag] found in [doc]; if
    no such tag exists, the injection is silently skipped." *)
Definition inject_before (tag text doc : jsstring) : jsstring :=
  match indexOf tag doc with
  | None => doc
  | Some i => firstn i doc ++ text ++ skipn i doc
  end.

Definition styleElement (css : jsstring) : jsstring :=
  lit "<style>" ++ css ++ lit "</style>".

Definition scriptElement (js : jsstring) : jsstring :=
  lit "<script>" ++ js ++ lit "</script>".

(** The specification's [compose]: each injection happens if and only if
    the collected text is non-empty, and injects the collected text as it
    is. *)
Definition compose_spec (fs : list FileData) : jsstring :=
  match find isHtml fs with
  | None => NO_INDEX
  | Some base =>
      let doc1 :=
        if truthy (cssContent fs)
        then inject_before HEAD_CLOSE (styleElement (cssContent fs))
               (content base)
        else content base in
      if truthy (jsContent fs)
      then inject_before BODY_CLOSE (scriptElement (jsContent fs)) doc1
      else doc1
  end.

(** The same composition with each injection guarded by the existence of
    a file of the kind, whatever its content. *)
Definition compose_by_files (fs : list FileData) : jsstring :=
  match find isHtml fs with
  | None => NO_INDEX
  | Some base =>
      let doc1 :=
        if existsb isCss fs
        then inject_before HEAD_CLOSE (styleElement (cssContent fs))
               (content base)
        else content base in
      if existsb isJs fs
      then inject_before BODY_CLOSE (scriptElement (jsContent fs)) doc1
      else doc1
  end.

(** [d] is one of the characters that give a dollar sign a special
    meaning in a replacement text. *)
Definition isSubstitutionChar (d : char16) : bool :=
  N.eqb d DOLLAR || N.eqb d AMPERSAND || N.eqb d BACKTICK || N.eqb d QUOTE.

(** No dollar sign of [s] is followed by such a character. *)
Fixpoint plainText (s : jsstring) : bool :=
  match s with
  | [] => true
  | c :: r =>
      (if N.eqb c DOLLAR
       then match r with
            | [] => true
            | d :: _ => negb (isSubstitutionChar d)
            end
       else true) && plainText r
  end.

(** The first character of [y], if any, gives no meaning to a dollar sign
    before it. *)
Definition safeStart (y : jsstring) : bool :=
  match y with
  | [] => true
  | d :: _ => negb (isSubstitutionChar d)
  end.

(** [tag] occurs in [doc] at offset [i] and at no smaller offset. *)
Definition first_occurrence (tag doc : jsstring) (i : nat) : Prop :=
  (exists after, doc = firstn i doc ++ tag ++ after) /\
  (forall j before after, doc = before ++ tag ++ after ->
                          length before = j -> i <= j).

(* ===================================================================== *)
(** ** File-set operations of the workspace *)
(* ===================================================================== *)

(** [DEFAULT_FILES] of [App.tsx]. *)
Definition quoted (s : string) : jsstring := DQUOTE :: lit s ++ [DQUOTE].

Definition DEFAULT_FILES : list FileData :=
  [ mkFile (lit "index.html")
      (join [NEWLINE]
         [ lit "<!DOCTYPE html>";
           lit "<html lang=" ++ quoted "en" ++ lit ">";
           lit "<head>";
           lit "    <meta charset=" ++ quoted "UTF-8" ++ lit ">";
           lit "    <meta name=" ++ quoted "viewport" ++ lit " content="
             ++ quoted "width=device-width, initial-scale=1.0" ++ lit ">";
           lit "    <title>My Awesome Project</title>";
           lit "    <link rel=" ++ quoted "stylesheet" ++ lit " href="
             ++ quoted "style.css" ++ lit ">";
           lit "</head>";
           lit "<body>";
           lit "    <h1>Hello, World!</h1>";
           lit "    <p>Describe what you want to build in the input below.</p>";
           lit "    <script src=" ++ quoted "script.js" ++ lit "></script>";
           lit "</body>";
           lit "</html>" ]);
    mkFile (lit "style.css")
      (join [NEWLINE]
         [ lit "body {";
           lit "  font-family: sans-serif;";
           lit "  background-color: #f0f0f0;";
           lit "  color: #333;";
           lit "  display: flex;";
           lit "  flex-direction: column;";
           lit "  justify-content: center;";
           lit "  align-items: center;";
           lit "  min-height: 100vh;";
           lit "  margin: 0;";
           lit "}" ]);
    mkFile (lit "script.js")
      (lit "console.log(" ++ quoted "Welcome to your new project!"
         ++ lit ");") ].

(** [files[0]?.fileName || '']. *)
Definition firstFileName (fs : list FileData) : jsstring :=
  orEmpty (option_map fileName (hd_error fs)).

(** The effect on [[files, activeFileName]]: it runs after a render and
    repairs a dangling active name.  (It also writes [files] to local
    storage, which is not modelled.) *)
Definition reconcile (st : App) : App :=
  if some (fun f => str_eqb (fileName f) (activeFileName st)) (files st)
  then st
  else setActiveFileName (firstFileName (files st)) st.

Definition resetProject (st : App) : App :=
  setActiveFileName (fileName (hd (mkFile [] []) DEFAULT_FILES))
    (setFilesTo DEFAULT_FILES st).

(** [handleCreateFile] of [CodeWorkspace.tsx]. *)
Definition handleCreateFile (name : jsstring) (st : App) : App :=
  let newFile := mkFile name [] in
  setActiveFileName name
    (setFiles (fun _ currentFiles => (currentFiles ++ [newFile], None)) st).

(** [handleDeleteFile] of [CodeWorkspace.tsx]; [activeFileName] is the
    prop of the render that created the handler. *)
Definition handleDeleteFile (fileNameToDelete : jsstring) (st : App) : App :=
  let active := activeFileName st in
  setFiles
    (fun _ currentFiles =>
       let newFiles :=
         filter (fun f => negb (str_eqb (fileName f) fileNameToDelete))
                currentFiles in
       (newFiles,
        if str_eqb active fileNameToDelete
        then Some (firstFileName newFiles)
        else None))
    st.

Section NewFile.

(** [String.prototype.toLowerCase], a table of the Unicode standard. *)
Variable toLowerCase : jsstring -> jsstring.

Definition EMPTY_NAME : jsstring := lit "File name cannot be empty.".

Definition DUPLICATE_NAME (trimmedName : jsstring) : jsstring :=
  lit "A file named " ++ [DQUOTE] ++ trimmedName ++ [DQUOTE]
  ++ lit " already exists.".

(** What [NewFileModal.handleSubmit] does with the typed name: it shows
    an error, or it calls [onCreate]. *)
Inductive Submission :=
| Refused (message : jsstring)
| OnCreate (name : jsstring).

Definition NewFileModal_handleSubmit (existingFiles : list jsstring)
    (typed : jsstring) : Submission :=
  let trimmedName := trim typed in
  if negb (truthy trimmedName) then Refused EMPTY_NAME
  else if some (fun f => str_eqb (toLowerCase f) (toLowerCase trimmedName))
               existingFiles
  then Refused (DUPLICATE_NAME trimmedName)
  else OnCreate trimmedName.

(** The modal as [CodeWorkspace] wires it:
    [existingFiles={files.map(f => f.fileName)}] and
    [onCreate={handleCreateFile}].  The result pairs the new state with
    the error the modal shows, if any. *)
Definition createFile (typed : jsstring) (st : App)
  : App * option jsstring :=
  match NewFileModal_handleSubmit (map fileName (files st)) typed with
  | Refused message => (st, Some message)
  | OnCreate name => (handleCreateFile name st, None)
  end.

End NewFile.

(** [toLowerCase] on text whose letters are ASCII. *)
Definition asciiLowerCase (s : jsstring) : jsstring :=
  map (fun c => if (65 <=? c)%N && (c <=? 90)%N then (c + 32)%N else c) s.

(* ===================================================================== *)
(** ** Snippet suggestions: [handleFetchSnippets] *)
(* ===================================================================== *)

(** A value produced by [JSON.parse]. *)
#[warnings="-register-all"] Inductive JsonValue :=
| JNull
| JBool (b : bool)
| JNumber (digits : jsstring)
| JString (s : jsstring)
| JArray (items : list JsonValue)
| JObject (properties : list (jsstring * JsonValue)).

(** The three state cells of the snippet panel. *)
Record Panel := mkPanel {
  snippets : list JsonValue;
  isSnippetsLoading : bool;
  snippetsError : option jsstring
}.

Definition setSnippets (xs : list JsonValue) (p : Panel) : Panel :=
  mkPanel xs (isSnippetsLoading p) (snippetsError p).

Definition setIsSnippetsLoading (b : bool) (p : Panel) : Panel :=
  mkPanel (snippets p) b (snippetsError p).

Definition setSnippetsError (e : option jsstring) (p : Panel) : Panel :=
  mkPanel (snippets p) (isSnippetsLoading p) e.

(** How [await ai.models.generateContent(..)] ends: it rejects, or it
    resolves to a response whose [text] is a string or [undefined]. *)
Inductive ApiOutcome :=
| Rejects (e : Thrown)
| Resolves (text : option jsstring).

(** A computation of the [try] block: a value, or a throw. *)
Inductive Try (A : Type) :=
| Value (a : A)
| Throw (e : Thrown).
Arguments Value {A} a.
Arguments Throw {A} e.

Definition bindTry {A B : Type} (m : Try A) (k : A -> Try B) : Try B :=
  match m with
  | Value a => k a
  | Throw e => Throw e
  end.

Notation "x <- m ;; k" := (bindTry m (fun x => k))
  (at level 61, m at next level, right associativity).

Fixpoint getProperty (key : jsstring) (props : list (jsstring * JsonValue))
  : option JsonValue :=
  match props with
  | [] => None
  | (k, v) :: rest => if str_eqb k key then Some v else getProperty key rest
  end.

Section Snippets.

(** [JSON.parse], and the [TypeError]s the engine throws for a method
    call on [undefined] and for a property read on [null]. *)
Variable JSON_parse : jsstring -> Try JsonValue.
Variable callOnUndefined : Thrown.
Variable readOfNull : Thrown.

Definition INVALID_FORMAT : Thrown :=
  ErrorObject (lit "Invalid snippet format from API.").

(** [parsed.snippets && Array.isArray(parsed.snippets)], then the array
    or the throw of the [else] branch. *)
Definition snippetsOf (parsed : JsonValue) : Try (list JsonValue) :=
  match parsed with
  | JNull => Throw readOfNull
  | JObject properties =>
      match getProperty (lit "snippets") properties with
      | Some (JArray items) => Value items
      | _ => Throw INVALID_FORMAT
      end
  | _ => Throw INVALID_FORMAT
  end.

(** The [try] block. *)
Definition fetchSnippets (outcome : ApiOutcome) : Try (list JsonValue) :=
  text <- match outcome with
          | Rejects e => Throw e
          | Resolves (Some text) => Value (trim text)
          | Resolves None => Throw callOnUndefined
          end ;;
  parsed <- JSON_parse text ;;
  snippetsOf parsed.

Definition snippetError (e : Thrown) : jsstring :=
  lit "Failed to fetch snippets: " ++ errorMessage e.

Definition handleFetchSnippets (outcome : ApiOutcome) (p : Panel) : Panel :=
  let p0 :=
    setSnippets [] (setSnippetsError None (setIsSnippetsLoading true p)) in
  let p1 :=
    match fetchSnippets outcome with
    | Value items => setSnippets items p0
    | Throw e => setSnippetsError (Some (snippetError e)) p0
    end in
  setIsSnippetsLoading false p1.

End Snippets.

(* ===================================================================== *)
(** ** Properties of file sets used in the statements *)
(* ===================================================================== *)

(** [new] is [old] with [text] appended to the content of every entry
    named [t], and nothing else changed: same number of entries, same
    order, same names. *)
Definition appended_only (t text : jsstring) (old new : list FileData)
  : Prop :=
  length new = length old /\
  forall i f, nth_error old i = Some f ->
    exists g, nth_error new i = Some g /\
      fileName g = fileName f /\
      (fileName f = t -> content g = content f ++ text) /\
      (fileName f <> t -> g = f).

(** [new] keeps every entry of [old] at its place, with its name, and with
    its content possibly longer. *)
Definition grows (old new : list FileData) : Prop :=
  forall i f, nth_error old i = Some f ->
    exists g more, nth_error new i = Some g /\
      fileName g = fileName f /\ content g = content f ++ more.

(** An updater that never removes an entry and never shortens a content. *)
Definition growing (u : Updater) : Prop :=
  forall env prevFiles, grows prevFiles (fst (u env prevFiles)).

(** A state whose pending updaters are all growing. *)
Definition steady (st : App) : Prop := Forall growing (queue st).

(** *** The demuxer as the specification words it

    The specification's state: the file set, its active name and the
    current target; its line rule changes the file set at once. *)
Record Demux := mkDemux {
  fileSet : list FileData;
  active : jsstring;
  target : option jsstring
}.

Definition spec_line (d : Demux) (line : jsstring) : Demux :=
  if startsWith MARKER line then
    let name := trim (substring_from (length MARKER) line) in
    if truthy name
    then mkDemux (add_if_absent name (fileSet d)) name (Some name)
    else d
  else if truthy_opt (target d)
  then mkDemux (append_to (target d) (line ++ [NEWLINE]) (fileSet d))
               (active d) (target d)
  else d.

(** What the specification's state shows of an application state. *)
Definition shown (st : App) : Demux :=
  mkDemux (files st) (activeFileName st) (currentFileName (vars st)).

(** The stream delivered one complete line per chunk, with a render after
    each chunk. *)
Definition lineByLine (lines : list jsstring) : list Event :=
  flat_map (fun line => [Chunk (line ++ [NEWLINE]); Render]) lines.

(* ===================================================================== *)
(** ** Sample inputs *)
(* ===================================================================== *)

Definition idle : App :=
  mkApp (lit "a page") [] [] false None [] (mkLocals None []).

(** The stream of the specification's example:
    [>>>FILE: a.js\nconsole.log(1);\n>>>FILE: b.css\nbody{}\n]. *)
Definition sampleStream : jsstring :=
  lit ">>>FILE: a.js" ++ [NEWLINE] ++ lit "console.log(1);" ++ [NEWLINE]
  ++ lit ">>>FILE: b.css" ++ [NEWLINE] ++ lit "body{}" ++ [NEWLINE].

Definition sampleLines : list jsstring :=
  [ lit ">>>FILE: a.js"; lit "console.log(1);";
    lit ">>>FILE: b.css"; lit "body{}" ].

(** All of the text in one chunk. *)
Definition inOneChunk (text : jsstring) : list Event := [Chunk text].

(** One code unit per chunk, React rendering after each chunk. *)
Definition unitByUnit (text : jsstring) : list Event :=
  flat_map (fun c => [Chunk [c]; Render]) text.

(** A state in the middle of a generation: [a.js] is the target. *)
Definition streaming : App :=
  mkApp (lit "a page") [mkFile (lit "a.js") (lit "x();" ++ [NEWLINE])]
        (lit "a.js") true None [] (mkLocals (Some (lit "a.js")) (lit "y(")).

(** The project of the specification's composition example. *)
Definition sampleProject : list FileData :=
  [ mkFile (lit "index.html") (lit "<head></head><body></body>");
    mkFile (lit "style.css") (lit "a{}");
    mkFile (lit "script.js") (lit "x()") ].

(** A project whose only style sheet is empty. *)
Definition emptyCssProject : list FileData :=
  [ mkFile (lit "index.html") (lit "<head></head><body></body>");
    mkFile (lit "style.css") [] ].

(** A project whose script holds a dollar sign before a quote. *)
Definition dollarProject : list FileData :=
  [ mkFile (lit "index.html") (lit "<body></body>");
    mkFile (lit "script.js") (lit "f('$')") ].

(* ===================================================================== *)
(** ** The formatter: [utils/formatter.ts] *)
(* ===================================================================== *)

(** The parser names [getParser] returns. *)
Inductive Parser := ParserHtml | ParserCss | ParserBabel.

Definition getParser (name : jsstring) : option Parser :=
  if endsWith (lit ".html") name then Some ParserHtml
  else if endsWith (lit ".css") name then Some ParserCss
  else if endsWith (lit ".js") name || endsWith (lit ".jsx") name
          || endsWith (lit ".ts") name || endsWith (lit ".tsx") name
  then Some ParserBabel
  else None.

Section Formatter.

(** [prettier.format(content, { parser, .. })] with the fixed plugins and
    options of the source: it resolves to the formatted text or fails. *)
Variable prettier_format : Parser -> jsstring -> Try jsstring.

(** The value [formatCode] resolves to. *)
Definition formatCode (name text : jsstring) : jsstring :=
  match getParser name with
  | None => text
  | Some parser =>
      match prettier_format parser text with
      | Value formattedContent => formattedContent
      | Throw _ => text
      end
  end.

(** The value of [formattedFiles] in the formatting pass of
    [handleSubmit], to which the promise of the updater resolves:
    [Promise.all] over the files, each rebuilt with its name and its
    formatted content. *)
Definition formattedFiles (currentFiles : list FileData) : list FileData :=
  map (fun file => mkFile (fileName file)
                          (formatCode (fileName file) (content file)))
      currentFiles.

End Formatter.

(* ===================================================================== *)
(** ** File extensions: [getLanguage] and [GetFileIcon] *)
(* ===================================================================== *)

Definition DOT : char16 := 46%N.

(** [s.split(sep)] for a separator of one code unit. *)
Fixpoint split (sep : char16) (s : jsstring) : list jsstring :=
  match s with
  | [] => [[]]
  | c :: r =>
      if N.eqb c sep then [] :: split sep r
      else match split sep r with
           | segment :: segments => (c :: segment) :: segments
           | [] => [[c]]
           end
  end.

(** [xs.pop()], for its value. *)
Fixpoint pop {A : Type} (xs : list A) : option A :=
  match xs with
  | [] => None
  | [x] => Some x
  | _ :: rest => pop rest
  end.

Section Extensions.

Variable toLowerCase : jsstring -> jsstring.

(** [fileName.split('.').pop()?.toLowerCase()]. *)
Definition extensionOf (name : jsstring) : option jsstring :=
  option_map toLowerCase (pop (split DOT name)).

Definition is_case (extension : option jsstring) (label : string) : bool :=
  match extension with
  | Some e => str_eqb e (lit label)
  | None => false
  end.

(** [getLanguage] of the editor component. *)
Definition getLanguage (name : jsstring) : jsstring :=
  let extension := extensionOf name in
  if is_case extension "js" || is_case extension "jsx"
  then lit "javascript"
  else if is_case extension "ts" || is_case extension "tsx"
  then lit "typescript"
  else if is_case extension "css" then lit "css"
  else if is_case extension "html" then lit "html"
  else if is_case extension "json" then lit "json"
  else if is_case extension "md" then lit "markdown"
  else lit "plaintext".

(** The icon [GetFileIcon] renders, with its colour. *)
Inductive Icon :=
| HtmlOrange
| CssBlue
| JsYellow
| JsCyan
| FileGray.

Definition GetFileIcon (name : jsstring) : Icon :=
  let extension := extensionOf name in
  if is_case extension "html" then HtmlOrange
  else if is_case extension "css" then CssBlue
  else if is_case extension "js" || is_case extension "jsx" then JsYellow
  else if is_case extension "ts" || is_case extension "tsx" then JsCyan
  else FileGray.

End Extensions.

(* ===================================================================== *)
(** ** Editing: [handleContentChange] of [CodeWorkspace.tsx] *)
(* ===================================================================== *)

(** [{ ...file, content: newContent }] for the entries named [active]. *)
Definition replace_content (active newContent : jsstring)
    (currentFiles : list FileData) : list FileData :=
  map (fun file => if str_eqb (fileName file) active
                   then mkFile (fileName file) newContent
                   else file) currentFiles.

(** [newContent] is a string or [undefined]; [activeFileName] is the prop
    of the render that created the handler. *)
Definition handleContentChange (newContent : option jsstring) (st : App)
  : App :=
  match newContent with
  | None => st
  | Some text =>
      let active := activeFileName st in
      setFiles (fun _ currentFiles =>
                  (replace_content active text currentFiles, None)) st
  end.

(* ===================================================================== *)
(** ** Speech recognition: [hooks/useSpeechRecognition.ts] *)
(* ===================================================================== *)

(** The state of the hook: its two state cells, its two refs, whether
    the handlers of the recognition object are still set, and the number
    of restart timeouts that have not fired yet. *)
Record Speech := mkSpeech {
  isListening : bool;
  transcript : jsstring;
  recognitionRef : bool;
  userStoppedRef : bool;
  handlersSet : bool;
  pendingRestarts : nat
}.

Definition unmounted : Speech := mkSpeech false [] false false false 0.

(** A call the hook makes on the recognition object. *)
Inductive ServiceCall := CallStart | CallStop.

(** One entry of [event.results]: the transcript of its first
    alternative. *)
Record SpeechResult := mkResult { firstTranscript : jsstring }.

(** What can happen to the hook. *)
Inductive SpeechEvent :=
| Mounted (supported : bool)
| ServiceStarted
| ServiceEnded
| ServiceError (error : jsstring)
| ServiceResult (results : list SpeechResult)
| RestartDue (startThrows : bool)
| UserStart
| UserStop
| Unmounted.

(** [event.error === 'no-speech' || .. 'audio-capture' || .. 'network']. *)
Definition recoverable (error : jsstring) : bool :=
  str_eqb error (lit "no-speech") || str_eqb error (lit "audio-capture")
  || str_eqb error (lit "network").

Definition onstart (h : Speech) : Speech :=
  mkSpeech true (transcript h) (recognitionRef h) (userStoppedRef h)
           (handlersSet h) (pendingRestarts h).

Definition onend (h : Speech) : Speech :=
  mkSpeech false (transcript h) (recognitionRef h) (userStoppedRef h)
           (handlersSet h)
           (if userStoppedRef h then pendingRestarts h
            else S (pendingRestarts h)).

Definition onerror (error : jsstring) (h : Speech) : Speech :=
  if recoverable error then h
  else mkSpeech (isListening h) (transcript h) (recognitionRef h) true
                (handlersSet h) (pendingRestarts h).

Definition onresult (results : list SpeechResult) (h : Speech) : Speech :=
  mkSpeech (isListening h) (join [] (map firstTranscript results))
           (recognitionRef h) (userStoppedRef h) (handlersSet h)
           (pendingRestarts h).

(** The callback of [setTimeout(.., 100)] in [onend]. *)
Definition restart (startThrows : bool) (h : Speech)
  : Speech * list ServiceCall :=
  let h' := mkSpeech (isListening h) (transcript h) (recognitionRef h)
                     (userStoppedRef h) (handlersSet h)
                     (pred (pendingRestarts h)) in
  if recognitionRef h then
    (if startThrows
     then mkSpeech (isListening h) (transcript h) (recognitionRef h) true
                   (handlersSet h) (pred (pendingRestarts h))
     else h',
     [CallStart])
  else (h', []).

Definition startListening (h : Speech) : Speech * list ServiceCall :=
  if recognitionRef h && negb (isListening h) then
    (mkSpeech (isListening h) [] (recognitionRef h) false (handlersSet h)
              (pendingRestarts h),
     [CallStart])
  else (h, []).

Definition stopListening (h : Speech) : Speech * list ServiceCall :=
  if recognitionRef h && isListening h then
    (mkSpeech (isListening h) (transcript h) (recognitionRef h) true
              (handlersSet h) (pendingRestarts h),
     [CallStop])
  else (h, []).

(** The effect of the hook and its cleanup. *)
Definition mount (supported : bool) (h : Speech) : Speech :=
  if supported
  then mkSpeech (isListening h) (transcript h) true (userStoppedRef h) true
                (pendingRestarts h)
  else h.

Definition cleanup (h : Speech) : Speech * list ServiceCall :=
  if recognitionRef h then
    (mkSpeech (isListening h) (transcript h) (recognitionRef h) true false
              (pendingRestarts h),
     [CallStop])
  else
    (mkSpeech (isListening h) (transcript h) (recognitionRef h) true
              (handlersSet h) (pendingRestarts h),
     []).

(** One event: the handlers of the recognition object run only while they
    are set, and a timeout fires only if one is pending. *)
Definition speechStep (h : Speech) (e : SpeechEvent)
  : Speech * list ServiceCall :=
  match e with
  | Mounted supported => (mount supported h, [])
  | ServiceStarted => (if handlersSet h then onstart h else h, [])
  | ServiceEnded => (if handlersSet h then onend h else h, [])
  | ServiceError error => (if handlersSet h then onerror error h else h, [])
  | ServiceResult results =>
      (if handlersSet h then onresult results h else h, [])
  | RestartDue startThrows =>
      match pendingRestarts h with
      | 0 => (h, [])
      | S _ => restart startThrows h
      end
  | UserStart => startListening h
  | UserStop => stopListening h
  | Unmounted => cleanup h
  end.

Fixpoint speechRun (events : list SpeechEvent) (h : Speech)
  : Speech * list ServiceCall :=
  match events with
  | [] => (h, [])
  | e :: rest =>
      let r := speechStep h e in
      let r' := speechRun rest (fst r) in
      (fst r', snd r ++ snd r')
  end.

Definition isUserStart (e : SpeechEvent) : bool :=
  match e with UserStart => true | _ => false end.

Definition mountsService (e : SpeechEvent) : bool :=
  match e with Mounted true => true | _ => false end.

Definition isCallStart (c : ServiceCall) : bool :=
  match c with CallStart => true | CallStop => false end.

(** How many times [start()] is called. *)
Definition startCalls (calls : list ServiceCall) : nat :=
  length (filter isCallStart calls).

(* ===================================================================== *)
(** ** More properties used in the statements *)
(* ===================================================================== *)

(** The last two code units of a string. *)
Definition last2 (s : jsstring) : option (char16 * char16) :=
  match rev s with
  | y :: x :: _ => Some (x, y)
  | _ => None
  end.

(** The extensions the formatter knows. *)
Definition knownExtensions : list string :=
  ["html"; "css"; "js"; "jsx"; "ts"; "tsx"]%string.

(** [pat] occurs in [s]. *)
Definition occurs (pat s : jsstring) : Prop :=
  exists before after, s = before ++ pat ++ after.

(** The text of the chunks among [events], in order. *)
Definition textOf (events : list Event) : jsstring :=
  flat_map (fun e => match e with Chunk text => text | Render => [] end)
           events.

(** Whatever the locals are when React renders, the pending updaters
    leave a file set that satisfies [P]. *)
Definition rendersTo (P : list FileData -> Prop) (st : App) : Prop :=
  forall env active,
    P (fst (flush env (queue st) (files st, active))).

(** A property of file sets that the updaters of the demuxer keep. *)
Definition demuxStable (P : list FileData -> Prop) : Prop :=
  (forall n prev, n <> [] -> P prev -> P (add_if_absent n prev)) /\
  (forall o text prev, P prev -> P (append_to o text prev)).

(** An updater whose resulting names depend on the names it receives
    only. *)
Definition nameStable (u : Updater) : Prop :=
  forall env1 env2 prev1 prev2,
    map fileName prev1 = map fileName prev2 ->
    map fileName (fst (u env1 prev1)) = map fileName (fst (u env2 prev2)).

(** Two states whose next renders show the same names in the same order,
    whatever the locals are then. *)
Definition sameNames (s1 s2 : App) : Prop :=
  forall env1 env2 a1 a2,
    map fileName (fst (flush env1 (queue s1) (files s1, a1))) =
    map fileName (fst (flush env2 (queue s2) (files s2, a2))).

(** Two states in step: same locals, same names to come. *)
Definition inStep (s1 s2 : App) : Prop :=
  vars s1 = vars s2 /\ sameNames s1 s2.

(** The names are pairwise different and none is empty. *)
Definition properNames (fs : list FileData) : Prop :=
  NoDup (map fileName fs) /\ ~ In [] (map fileName fs).

(** A file set without two names that differ in case only. *)
Definition distinctIgnoringCase (toLowerCase : jsstring -> jsstring)
    (fs : list FileData) : Prop :=
  NoDup (map (fun f => toLowerCase (fileName f)) fs).

(** A running workspace state for the examples. *)
Definition workspace : App :=
  mkApp [] DEFAULT_FILES (lit "style.css") false None [] (mkLocals None []).

Definition hearing : Speech := mkSpeech true (lit "make a") true false true 0.

(** The marker of [b.css], on its line. *)
Definition markerOfCss : jsstring := lit ">>>FILE: b.css" ++ [NEWLINE].

(** [a.js] is announced, then a marker without a name, then a line. *)
Definition emptyMarkerText : jsstring :=
  lit ">>>FILE: a.js" ++ [NEWLINE] ++ lit ">>>FILE:   " ++ [NEWLINE]
  ++ lit "z();" ++ [NEWLINE].

(** [b.css] is announced, then [a.js]. *)
Definition twoFilesText : jsstring :=
  lit ">>>FILE: b.css" ++ [NEWLINE] ++ lit ">>>FILE: a.js" ++ [NEWLINE].

Definition oneLine : jsstring := lit "z();" ++ [NEWLINE].

(** A stream that throws after a file, a line and the start of a second
    line, React having rendered in between. *)
Definition brokenStream : list Event :=
  [ Chunk (lit ">>>FILE: a.js" ++ [NEWLINE] ++ lit "x();" ++ [NEWLINE]
           ++ lit "y(");
    Render ].

Definition timeout : Thrown := ErrorObject (lit "timeout").

(* ===================================================================== *)
(** ** Strings: basic facts *)
(* ===================================================================== *)

Lemma str_eqb_refl (s : jsstring) : str_eqb s s = true.
Proof.
  induction s as [|c s IH]; cbn [str_eqb]; [reflexivity|].
  rewrite N.eqb_refl, IH. reflexivity.
Qed.

Lemma str_eqb_eq (s t : jsstring) : str_eqb s t = true <-> s = t.
Proof.
  split; [|intros ->; apply str_eqb_refl].
  revert t. induction s as [|c s IH]; intros [|d t] H;
    cbn [str_eqb] in H; try discriminate; [reflexivity|].
  apply andb_true_iff in H. destruct H as [Hc Hs].
  apply N.eqb_eq in Hc. apply IH in Hs. congruence.
Qed.

Lemma str_eqb_neq (s t : jsstring) : str_eqb s t = false <-> s <> t.
Proof.
  rewrite <- str_eqb_eq. destruct (str_eqb s t); split; congruence.
Qed.

Lemma truthy_true (s : jsstring) : truthy s = true <-> s <> [].
Proof. destruct s; cbn; split; congruence. Qed.

Lemma some_fileName (n : jsstring) (fs : list FileData) :
  some (fun f => str_eqb (fileName f) n) fs = true
  <-> In n (map fileName fs).
Proof.
  unfold some. rewrite existsb_exists, in_map_iff. split.
  - intros [f [Hin Heq]]. apply str_eqb_eq in Heq. exists f. auto.
  - intros [f [Heq Hin]]. exists f. split; [assumption|].
    apply str_eqb_eq. assumption.
Qed.

Lemma startsWith_split (pat s : jsstring) :
  startsWith pat s = true -> s = pat ++ skipn (length pat) s.
Proof.
  revert s. induction pat as [|p pat IH]; intros s H; [reflexivity|].
  destruct s as [|c s]; cbn [startsWith] in H; [discriminate|].
  apply andb_true_iff in H. destruct H as [Hc Hs].
  apply N.eqb_eq in Hc. subst c. cbn [length skipn app].
  f_equal. apply IH. assumption.
Qed.

Lemma startsWith_app (pat rest : jsstring) : startsWith pat (pat ++ rest) = true.
Proof.
  induction pat as [|p pat IH]; [reflexivity|].
  cbn [app startsWith]. rewrite N.eqb_refl. assumption.
Qed.

Lemma startsWith_app_r (pat s extra : jsstring) :
  startsWith pat s = true -> startsWith pat (s ++ extra) = true.
Proof.
  intros H. rewrite (startsWith_split _ _ H), <- app_assoc.
  apply startsWith_app.
Qed.

Lemma indexOf_cons (pat : jsstring) (c : char16) (s : jsstring) :
  indexOf pat (c :: s) =
  if startsWith pat (c :: s) then Some 0 else option_map S (indexOf pat s).
Proof. reflexivity. Qed.

(** Where [indexOf] points, the pattern is found. *)
Lemma indexOf_Some_skipn (pat s : jsstring) (i : nat) :
  indexOf pat s = Some i ->
  skipn i s = pat ++ skipn (i + length pat) s.
Proof.
  revert i. induction s as [|c s IH]; intros i H.
  - cbn [indexOf] in H. destruct (startsWith pat []) eqn:E; [|discriminate].
    inversion H. subst i. apply startsWith_split in E. exact E.
  - rewrite indexOf_cons in H. destruct (startsWith pat (c :: s)) eqn:E.
    + inversion H. subst i. apply startsWith_split in E. exact E.
    + destruct (indexOf pat s) as [j|]; cbn [option_map] in H; [|discriminate].
      inversion H. subst i. cbn [skipn plus]. apply IH. reflexivity.
Qed.

(** No occurrence starts before the offset [indexOf] returns. *)
Lemma indexOf_Some_least (pat s : jsstring) (i : nat) :
  indexOf pat s = Some i ->
  forall before after, s = before ++ pat ++ after -> i <= length before.
Proof.
  revert i. induction s as [|c s IH]; intros i H before after Hs.
  - cbn [indexOf] in H. destruct (startsWith pat []); [|discriminate].
    inversion H. lia.
  - rewrite indexOf_cons in H. destruct (startsWith pat (c :: s)) eqn:E.
    + inversion H. lia.
    + destruct (indexOf pat s) as [j|]; cbn [option_map] in H; [|discriminate].
      inversion H. subst i. destruct before as [|b before].
      * cbn [app] in Hs. rewrite Hs, startsWith_app in E. discriminate.
      * cbn [app] in Hs. inversion Hs. subst. cbn [length].
        apply le_n_S. eapply IH; reflexivity.
Qed.

(** [indexOf] fails only when the pattern does not occur. *)
Lemma indexOf_None (pat s : jsstring) :
  indexOf pat s = None ->
  forall before after, s <> before ++ pat ++ after.
Proof.
  induction s as [|c s IH]; intros H before after Hs.
  - cbn [indexOf] in H. destruct (startsWith pat []) eqn:E; [discriminate|].
    destruct before; [|discriminate]. cbn [app] in Hs.
    rewrite Hs, startsWith_app in E. discriminate.
  - rewrite indexOf_cons in H. destruct (startsWith pat (c :: s)) eqn:E;
      [discriminate|].
    destruct (indexOf pat s) as [j|] eqn:Ej; cbn [option_map] in H;
      [discriminate|].
    destruct before as [|b before]; cbn [app] in Hs.
    + rewrite Hs, startsWith_app in E. discriminate.
    + inversion Hs. subst. eapply IH; reflexivity.
Qed.

Lemma indexOf_first_occurrence (pat s : jsstring) (i : nat) :
  indexOf pat s = Some i -> first_occurrence pat s i.
Proof.
  intros H. split.
  - exists (skipn (i + length pat) s).
    rewrite <- (indexOf_Some_skipn _ _ _ H). symmetry. apply firstn_skipn.
  - intros j before after Hs Hj. subst j.
    eapply indexOf_Some_least; eassumption.
Qed.

Lemma indexOf_le (pat s : jsstring) (i : nat) :
  indexOf pat s = Some i -> i <= length s.
Proof.
  revert i. induction s as [|c s IH]; intros i H.
  - cbn [indexOf] in H. destruct (startsWith pat []); [|discriminate].
    inversion H. lia.
  - rewrite indexOf_cons in H. destruct (startsWith pat (c :: s)).
    + inversion H. lia.
    + destruct (indexOf pat s) as [j|]; cbn [option_map] in H; [|discriminate].
      inversion H. cbn [length]. specialize (IH j eq_refl). lia.
Qed.

Lemma first_occurrence_indexOf (pat s : jsstring) (i : nat) :
  first_occurrence pat s i -> indexOf pat s = Some i.
Proof.
  intros [[after Hocc] Hleast].
  destruct (indexOf pat s) as [j|] eqn:Ej.
  - f_equal. apply Nat.le_antisymm.
    + pose proof (indexOf_Some_least _ _ _ Ej _ _ Hocc) as Hj.
      rewrite length_firstn in Hj. lia.
    + apply (Hleast j (firstn j s) (skipn (j + length pat) s)).
      * rewrite <- (indexOf_Some_skipn _ _ _ Ej). symmetry. apply firstn_skipn.
      * rewrite length_firstn. apply indexOf_le in Ej. lia.
  - exfalso. exact (indexOf_None _ _ Ej _ _ Hocc).
Qed.

(* ===================================================================== *)
(** ** The update queue *)
(* ===================================================================== *)

Lemma flush_snoc (env : Locals) (us : list Updater) (u : Updater)
    (acc : list FileData * jsstring) :
  flush env (us ++ [u]) acc = apply_updater env (flush env us acc) u.
Proof. unfold flush. rewrite fold_left_app. reflexivity. Qed.

Lemma files_render_setFiles (u : Updater) (st : App) :
  files (render (setFiles u st)) = fst (u (vars st) (files (render st))).
Proof.
  unfold render, setFiles. cbn [files queue vars activeFileName].
  rewrite flush_snoc. reflexivity.
Qed.

Lemma active_render_setFiles (u : Updater) (st : App) :
  activeFileName (render (setFiles u st)) =
  match snd (u (vars st) (files (render st))) with
  | Some n => n
  | None => activeFileName (render st)
  end.
Proof.
  unfold render, setFiles. cbn [files queue vars activeFileName].
  rewrite flush_snoc. reflexivity.
Qed.

(** The files a flush produces do not depend on the active name. *)
Lemma flush_files_active (env : Locals) (us : list Updater)
    (fs : list FileData) (a b : jsstring) :
  fst (flush env us (fs, a)) = fst (flush env us (fs, b)).
Proof.
  revert fs a b. induction us as [|u us IH]; intros fs a b; [reflexivity|].
  cbn [flush fold_left]. unfold apply_updater at 2 4. cbn [fst snd].
  apply IH.
Qed.

Lemma files_render_setActiveFileName (n : jsstring) (st : App) :
  files (render (setActiveFileName n st)) = files (render st).
Proof. apply flush_files_active. Qed.

Lemma render_idle (st : App) :
  queue st = [] ->
  files (render st) = files st /\ activeFileName (render st) = activeFileName st.
Proof. intros H. unfold render. rewrite H. split; reflexivity. Qed.

Lemma nth_error_append_to (o : option jsstring) (text : jsstring)
    (fs : list FileData) (i : nat) :
  nth_error (append_to o text fs) i =
  option_map (fun f => if named_by o f
                       then mkFile (fileName f) (content f ++ text)
                       else f)
             (nth_error fs i).
Proof. unfold append_to. apply nth_error_map. Qed.

Lemma append_to_appended_only (t text : jsstring) (fs : list FileData) :
  appended_only t text fs (append_to (Some t) text fs).
Proof.
  split.
  - unfold append_to. apply length_map.
  - intros i f Hf. rewrite nth_error_append_to, Hf. cbn [option_map named_by].
    destruct (str_eqb (fileName f) t) eqn:E.
    + eexists. split; [reflexivity|]. cbn [fileName content].
      apply str_eqb_eq in E. repeat split; congruence.
    + exists f. apply str_eqb_neq in E. repeat split; congruence.
Qed.

Lemma appended_only_names (t text : jsstring) (old new : list FileData) :
  appended_only t text old new -> map fileName new = map fileName old.
Proof.
  intros [Hlen H]. apply nth_error_ext. intros i.
  rewrite !nth_error_map.
  destruct (nth_error old i) as [f|] eqn:Ef.
  - destruct (H i f Ef) as [g [Hg [Hn _]]]. rewrite Hg. cbn. congruence.
  - apply nth_error_None in Ef. rewrite <- Hlen in Ef.
    apply nth_error_None in Ef. rewrite Ef. reflexivity.
Qed.

(* ===================================================================== *)
(** ** Line processing *)
(* ===================================================================== *)

Lemma process_line_marker (line : jsstring) (st : App) :
  startsWith MARKER line = true ->
  truthy (trim (substring_from (length MARKER) line)) = true ->
  process_line line st =
  let newFileName := trim (substring_from (length MARKER) line) in
  setActiveFileName newFileName
    (setFiles (markerUpdater newFileName)
       (set_currentFileName (Some newFileName) st)).
Proof. intros H1 H2. unfold process_line. rewrite H1, H2. reflexivity. Qed.

Lemma process_line_content (line : jsstring) (st : App) :
  startsWith MARKER line = false ->
  truthy_opt (currentFileName (vars st)) = true ->
  process_line line st = setFiles (lineUpdater line) st.
Proof. intros H1 H2. unfold process_line. rewrite H1, H2. reflexivity. Qed.

Lemma add_if_absent_present (n : jsstring) (fs : list FileData) :
  In n (map fileName fs) -> add_if_absent n fs = fs.
Proof.
  intros H. unfold add_if_absent.
  apply some_fileName in H. rewrite H. reflexivity.
Qed.

Lemma add_if_absent_absent (n : jsstring) (fs : list FileData) :
  ~ In n (map fileName fs) -> add_if_absent n fs = fs ++ [mkFile n []].
Proof.
  intros H. unfold add_if_absent.
  destruct (some _ fs) eqn:E; [|reflexivity].
  apply some_fileName in E. contradiction.
Qed.

(** C2.  A line that starts with [>>>FILE:] and whose remainder trims to a
    non-empty [name] makes [name] the current target and the active file at
    once, and hands React exactly one updater.  Whatever file set that
    updater receives, it returns it unchanged when [name] is already
    there (no entry added, no content reset) and with an empty entry
    [name] appended at the end otherwise.  In particular, from a state
    without pending updates, the next render shows the file set so
    changed, with [name] active. *)
Theorem marker_line_rule (st : App) (line name : jsstring) :
  startsWith MARKER line = true ->
  trim (substring_from (length MARKER) line) = name ->
  name <> [] ->
  let st' := process_line line st in
  currentFileName (vars st') = Some name /\
  activeFileName st' = name /\
  buffer (vars st') = buffer (vars st) /\
  (exists u, queue st' = queue st ++ [u] /\
     forall env prevFiles,
       snd (u env prevFiles) = None /\
       (In name (map fileName prevFiles) ->
          fst (u env prevFiles) = prevFiles) /\
       (~ In name (map fileName prevFiles) ->
          fst (u env prevFiles) = prevFiles ++ [mkFile name []])) /\
  (queue st = [] ->
     activeFileName (render st') = name /\
     (In name (map fileName (files st)) -> files (render st') = files st) /\
     (~ In name (map fileName (files st)) ->
        files (render st') = files st ++ [mkFile name []])).
Proof.
  intros Hm Hn Hne st'. subst st'.
  rewrite process_line_marker by (try rewrite Hn; try apply truthy_true; assumption).
  rewrite Hn. cbn zeta.
  split; [reflexivity|]. split; [reflexivity|]. split; [reflexivity|]. split.
  - exists (markerUpdater name). split; [reflexivity|].
    intros env prevFiles. cbn [markerUpdater fst snd].
    split; [reflexivity|]. split.
    + apply add_if_absent_present.
    + apply add_if_absent_absent.
  - intros Hq. unfold render, setActiveFileName, setFiles, set_currentFileName,
      set_vars. cbn [files queue vars activeFileName prompt isLoading error].
    rewrite Hq. cbn [app flush fold_left apply_updater markerUpdater fst snd].
    split; [reflexivity|]. split.
    + apply add_if_absent_present.
    + apply add_if_absent_absent.
Qed.

Lemma marker_line_rule_witness :
  let line := lit ">>>FILE: b.css" in
  let st' := process_line line streaming in
  currentFileName (vars st') = Some (lit "b.css") /\
  files (render st') =
    [mkFile (lit "a.js") (lit "x();" ++ [NEWLINE]); mkFile (lit "b.css") []].
Proof.
  intros line st'.
  assert (Hm : startsWith MARKER line = true) by reflexivity.
  assert (Hn : trim (substring_from (length MARKER) line) = lit "b.css")
    by reflexivity.
  assert (Hne : lit "b.css" <> []) by discriminate.
  destruct (marker_line_rule streaming line (lit "b.css") Hm Hn Hne)
    as [Hcur [_ [_ [_ Hrender]]]].
  split; [exact Hcur|].
  destruct (Hrender eq_refl) as [_ [_ Habsent]].
  apply Habsent. vm_compute. intros [H|[]]. discriminate.
Defined.

Lemma truthy_opt_Some (t : jsstring) :
  t <> [] -> truthy_opt (Some t) = true.
Proof. intros H. apply truthy_true. assumption. Qed.

(** What the next render shows after a content line was processed. *)
Lemma content_line_rendered (st : App) (line t : jsstring) :
  currentFileName (vars st) = Some t ->
  t <> [] ->
  startsWith MARKER line = false ->
  let st' := process_line line st in
  vars st' = vars st /\
  activeFileName (render st') = activeFileName (render st) /\
  files (render st') =
    append_to (Some t) (line ++ [NEWLINE]) (files (render st)).
Proof.
  intros Hcur Ht Hline st'. subst st'.
  rewrite process_line_content;
    [|assumption|rewrite Hcur; apply truthy_opt_Some; assumption].
  split; [reflexivity|]. split.
  - rewrite active_render_setFiles. reflexivity.
  - rewrite files_render_setFiles. cbn [lineUpdater fst].
    rewrite Hcur. reflexivity.
Qed.

(** X22.  When React renders right after a content line (one that does
    not start with the marker), before the target [t] of the line has
    changed, the line changes only the content of the entries named [t],
    to which the line and a newline are appended: the number of entries,
    their order, their names, every other entry, the active name and the
    locals of the stream are as they would be without the line. *)
Theorem content_line_frame (st : App) (line t : jsstring) :
  currentFileName (vars st) = Some t ->
  t <> [] ->
  startsWith MARKER line = false ->
  let st' := process_line line st in
  appended_only t (line ++ [NEWLINE])
    (files (render st)) (files (render st')) /\
  length (files (render st')) = length (files (render st)) /\
  map fileName (files (render st')) = map fileName (files (render st)) /\
  activeFileName (render st') = activeFileName (render st) /\
  vars st' = vars st.
Proof.
  intros Hcur Ht Hline st'.
  destruct (content_line_rendered st line t Hcur Ht Hline)
    as [Hvars [Hact Hfiles]].
  fold st' in Hvars, Hact, Hfiles.
  assert (Happ : appended_only t (line ++ [NEWLINE])
                   (files (render st)) (files (render st'))).
  { rewrite Hfiles. apply append_to_appended_only. }
  split; [exact Happ|]. split; [exact (proj1 Happ)|].
  split; [exact (appended_only_names _ _ _ _ Happ)|].
  split; assumption.
Qed.

Lemma content_line_frame_witness :
  files (render (process_line (lit "z();") streaming)) =
    [mkFile (lit "a.js")
       (lit "x();" ++ [NEWLINE] ++ lit "z();" ++ [NEWLINE])] /\
  map fileName (files (render (process_line (lit "z();") streaming))) =
    map fileName (files (render streaming)).
Proof.
  assert (Hcur : currentFileName (vars streaming) = Some (lit "a.js"))
    by reflexivity.
  assert (Ht : lit "a.js" <> []) by discriminate.
  assert (Hline : startsWith MARKER (lit "z();") = false) by reflexivity.
  destruct (content_line_frame streaming (lit "z();") (lit "a.js")
              Hcur Ht Hline) as [_ [_ [Hnames _]]].
  split; [vm_compute; reflexivity | exact Hnames].
Defined.

(** X23.  A marker line whose name trims to the empty string leaves the
    whole state as it is: no updater is queued, so no file is created, and
    the current target [t] and the active file are kept.  When React
    renders right after the content line that follows, before the target
    has changed, that line is appended, with its newline, to the entries
    named [t] and to nothing else. *)
Theorem empty_marker_ignored (st : App) (line t : jsstring) :
  currentFileName (vars st) = Some t ->
  t <> [] ->
  startsWith MARKER line = true ->
  trim (substring_from (length MARKER) line) = [] ->
  process_line line st = st /\
  forall next, startsWith MARKER next = false ->
    let st' := process_line next (process_line line st) in
    currentFileName (vars st') = Some t /\
    activeFileName (render st') = activeFileName (render st) /\
    appended_only t (next ++ [NEWLINE])
      (files (render st)) (files (render st')).
Proof.
  intros Hcur Ht Hm Hn.
  assert (Hsame : process_line line st = st).
  { unfold process_line. rewrite Hm, Hn. reflexivity. }
  split; [exact Hsame|].
  intros next Hnext st'. subst st'. rewrite Hsame.
  destruct (content_line_rendered st next t Hcur Ht Hnext)
    as [Hvars [Hact Hfiles]].
  split; [rewrite Hvars; exact Hcur|]. split; [exact Hact|].
  rewrite Hfiles. apply append_to_appended_only.
Qed.

Lemma empty_marker_ignored_witness :
  let line := lit ">>>FILE:   " in
  process_line line streaming = streaming /\
  files (render (process_line (lit "z();") (process_line line streaming))) =
    [mkFile (lit "a.js")
       (lit "x();" ++ [NEWLINE] ++ lit "z();" ++ [NEWLINE])].
Proof.
  intros line.
  assert (Hcur : currentFileName (vars streaming) = Some (lit "a.js"))
    by reflexivity.
  assert (Ht : lit "a.js" <> []) by discriminate.
  assert (Hm : startsWith MARKER line = true) by reflexivity.
  assert (Hn : trim (substring_from (length MARKER) line) = [])
    by reflexivity.
  destruct (empty_marker_ignored streaming line (lit "a.js") Hcur Ht Hm Hn)
    as [Hsame _].
  split; [exact Hsame|]. rewrite Hsame. vm_compute. reflexivity.
Defined.

(** C5.  When the stream ends with a target [t] set and a non-empty
    buffer, the next render shows the buffer appended as it is, without a
    newline, to the content of the entries named [t], and nothing else
    changed; with no target or with an empty buffer [finish] changes
    nothing at all. *)
Theorem finish_appends_remainder (st : App) :
  (forall t, currentFileName (vars st) = Some t -> t <> [] ->
     buffer (vars st) <> [] ->
     appended_only t (buffer (vars st))
       (files (render st)) (files (render (finish st))) /\
     activeFileName (render (finish st)) = activeFileName (render st)) /\
  (currentFileName (vars st) = None \/ buffer (vars st) = [] ->
     finish st = st).
Proof.
  split.
  - intros t Hcur Ht Hbuf. unfold finish.
    rewrite Hcur, (truthy_opt_Some t Ht). cbn [andb].
    destruct (buffer (vars st)) as [|c b] eqn:Eb; [congruence|].
    cbn [length Nat.ltb Nat.leb]. split.
    + rewrite files_render_setFiles. cbn [remainderUpdater fst].
      rewrite Hcur, Eb. apply append_to_appended_only.
    + rewrite active_render_setFiles. reflexivity.
  - intros [Hnone|Hempty]; unfold finish.
    + rewrite Hnone. reflexivity.
    + rewrite Hempty. rewrite andb_false_r. reflexivity.
Qed.

Lemma finish_appends_remainder_witness :
  appended_only (lit "a.js") (lit "y(")
    (files (render streaming)) (files (render (finish streaming))) /\
  files (render (finish streaming)) =
    [mkFile (lit "a.js") (lit "x();" ++ [NEWLINE] ++ lit "y(")] /\
  finish idle = idle.
Proof.
  split; [|split].
  - apply (proj1 (finish_appends_remainder streaming) (lit "a.js"));
      [reflexivity | discriminate | discriminate].
  - vm_compute. reflexivity.
  - apply (proj2 (finish_appends_remainder idle)). left. reflexivity.
Defined.

(* ===================================================================== *)
(** ** The feed loop *)
(* ===================================================================== *)

Lemma drain_loop (st : App) :
  drain st =
  match indexOf [NEWLINE] (buffer (vars st)) with
  | Some i =>
      drain (process_line (substring 0 i (buffer (vars st)))
               (set_buffer (substring_from (i + 1) (buffer (vars st))) st))
  | None => st
  end.
Proof.
  rewrite drain_equation_1. unfold drain_clause_1. cbn.
  destruct (indexOf [NEWLINE] (buffer (vars st))); reflexivity.
Qed.

Lemma set_buffer_set_buffer (b b' : jsstring) (st : App) :
  set_buffer b (set_buffer b' st) = set_buffer b st.
Proof. reflexivity. Qed.

Lemma buffer_set_buffer (b : jsstring) (st : App) :
  buffer (vars (set_buffer b st)) = b.
Proof. reflexivity. Qed.

Lemma process_line_buffer (line : jsstring) (st : App) :
  buffer (vars (process_line line st)) = buffer (vars st).
Proof.
  unfold process_line.
  destruct (startsWith MARKER line);
    [destruct (truthy _) | destruct (truthy_opt _)]; reflexivity.
Qed.

Lemma process_line_set_buffer (line b : jsstring) (st : App) :
  process_line line (set_buffer b st) = set_buffer b (process_line line st).
Proof.
  unfold process_line.
  destruct (startsWith MARKER line).
  - destruct (truthy _); reflexivity.
  - cbn [set_buffer set_vars vars currentFileName].
    destruct (truthy_opt _); reflexivity.
Qed.

(** The first newline of a buffer stays the first one when text is added
    at the end. *)
Lemma indexOf_newline_app (s extra : jsstring) (i : nat) :
  indexOf [NEWLINE] s = Some i -> indexOf [NEWLINE] (s ++ extra) = Some i.
Proof.
  revert i. induction s as [|c s IH]; intros i H.
  - discriminate.
  - cbn [app]. rewrite indexOf_cons in *. cbn [startsWith] in *.
    destruct (N.eqb NEWLINE c); cbn [andb] in *; [assumption|].
    destruct (indexOf [NEWLINE] s) as [j|]; cbn [option_map] in H;
      [|discriminate].
    rewrite (IH j eq_refl). assumption.
Qed.

Lemma indexOf_newline_lt (s : jsstring) (i : nat) :
  indexOf [NEWLINE] s = Some i -> i < length s.
Proof.
  intros H. pose proof (indexOf_Some_skipn _ _ _ H) as Hs.
  assert (Hl : length (skipn i s) = length ([NEWLINE] ++ skipn (i + 1) s))
    by (rewrite Hs at 1; reflexivity).
  rewrite length_skipn in Hl. cbn [app length] in Hl. lia.
Qed.

(** Draining a buffer, then adding text and draining again, is draining
    the buffer with the text added. *)
Lemma drain_more (extra : jsstring) (st : App) :
  drain (set_buffer (buffer (vars st) ++ extra) st) =
  drain (set_buffer (buffer (vars (drain st)) ++ extra) (drain st)).
Proof.
  remember (length (buffer (vars st))) as n eqn:Hn.
  revert st Hn. induction n as [n IH] using lt_wf_ind. intros st Hn.
  rewrite (drain_loop st).
  destruct (indexOf [NEWLINE] (buffer (vars st))) as [i|] eqn:Ei;
    [|reflexivity].
  pose proof (indexOf_newline_lt _ _ Ei) as Hi.
  rewrite drain_loop, buffer_set_buffer.
  rewrite (indexOf_newline_app _ extra _ Ei).
  rewrite set_buffer_set_buffer.
  unfold substring, substring_from. rewrite Nat.sub_0_r. cbn [skipn].
  rewrite firstn_app, skipn_app.
  replace (i - length (buffer (vars st))) with 0 by lia.
  replace (i + 1 - length (buffer (vars st))) with 0 by lia.
  cbn [firstn skipn]. rewrite app_nil_r.
  set (line := firstn i (buffer (vars st))).
  set (rest := skipn (i + 1) (buffer (vars st))).
  rewrite process_line_set_buffer.
  rewrite <- (IH (length rest)) with (st := process_line line (set_buffer rest st)).
  - rewrite process_line_buffer, buffer_set_buffer.
    rewrite process_line_set_buffer. reflexivity.
  - subst rest n. rewrite length_skipn. lia.
  - rewrite process_line_buffer. reflexivity.
Qed.

(** Two chunks processed in a row, with no render in between, leave the
    state that their concatenation leaves. *)
Lemma feed_app (c1 c2 : jsstring) (st : App) :
  feed (c1 ++ c2) st = feed c2 (feed c1 st).
Proof.
  unfold feed. rewrite <- drain_more.
  rewrite buffer_set_buffer, set_buffer_set_buffer, app_assoc. reflexivity.
Qed.

(** X20.  Without a render in between, only the concatenation of the
    chunks matters. *)
Lemma consume_chunks_concat (c : jsstring) (cs : list jsstring) (st : App) :
  consume (map Chunk (c :: cs)) st = feed (concat (c :: cs)) st.
Proof.
  revert c st. induction cs as [|d cs IH]; intros c st.
  - cbn. rewrite app_nil_r. reflexivity.
  - change (consume (map Chunk (c :: d :: cs)) st)
      with (consume (map Chunk (d :: cs)) (feed c st)).
    rewrite IH. cbn [concat]. rewrite (feed_app c). reflexivity.
Qed.

(** C1.  The file set the application builds depends on how the stream is
    cut into chunks.  The stream of the specification's own example,
    received in one chunk, leaves [a.js] empty: the updater queued for
    [console.log(1);] runs at the next render and reads [currentFileName]
    then, when it is already [b.css].  The same text received one code
    unit per chunk, with a render after each chunk, gives [a.js] its
    line, as the specification's line rule does.  This is so for the
    file set React shows once the chunks are processed, and for the one
    it hands to the formatting pass when the stream has ended. *)
Theorem chunking_changes_files :
  files (render (consume (inOneChunk sampleStream) (startGeneration idle))) =
    [ mkFile (lit "a.js") [];
      mkFile (lit "b.css") (lit "body{}" ++ [NEWLINE]) ] /\
  files (render (consume (unitByUnit sampleStream) (startGeneration idle))) =
    [ mkFile (lit "a.js") (lit "console.log(1);" ++ [NEWLINE]);
      mkFile (lit "b.css") (lit "body{}" ++ [NEWLINE]) ] /\
  commit (handleSubmit (inOneChunk sampleStream) None idle) =
    Blank [ mkFile (lit "a.js") [];
            mkFile (lit "b.css") (lit "body{}" ++ [NEWLINE]) ] /\
  commit (handleSubmit (unitByUnit sampleStream) None idle) =
    Blank [ mkFile (lit "a.js") (lit "console.log(1);" ++ [NEWLINE]);
            mkFile (lit "b.css") (lit "body{}" ++ [NEWLINE]) ] /\
  fileSet (fold_left spec_line sampleLines (mkDemux [] [] None)) =
    [ mkFile (lit "a.js") (lit "console.log(1);" ++ [NEWLINE]);
      mkFile (lit "b.css") (lit "body{}" ++ [NEWLINE]) ].
Proof. repeat split; vm_compute; reflexivity. Qed.

(** C4.  A content line that follows a marker without a name is not
    always appended to the target: [a.js] is the target when [z();] is
    processed, but when the marker of [b.css] is processed before React
    renders, the line is lost.  When React renders before that marker,
    [a.js] gets the line. *)
Theorem line_after_empty_marker_is_lost :
  currentFileName (vars (consume [Chunk emptyMarkerText]
                           (startGeneration idle))) = Some (lit "a.js") /\
  files (render (consume [Chunk emptyMarkerText; Chunk markerOfCss]
                   (startGeneration idle))) =
    [ mkFile (lit "a.js") []; mkFile (lit "b.css") [] ] /\
  files (render (consume [Chunk emptyMarkerText; Render; Chunk markerOfCss]
                   (startGeneration idle))) =
    [ mkFile (lit "a.js") (lit "z();" ++ [NEWLINE]); mkFile (lit "b.css") [] ].
Proof. repeat split; vm_compute; reflexivity. Qed.

(** C9.  A content line does not always change only the entry of its
    target: [a.js] is the target when [z();] is processed, but when the
    marker of [b.css] is processed before React renders, the line is
    appended to the content of [b.css] and [a.js] stays empty.  When
    React renders before that marker, only [a.js] changes. *)
Theorem content_line_reaches_other_file :
  currentFileName (vars (consume [Chunk twoFilesText; Chunk oneLine]
                           (startGeneration idle))) = Some (lit "a.js") /\
  files (render (consume [Chunk twoFilesText] (startGeneration idle))) =
    [ mkFile (lit "b.css") []; mkFile (lit "a.js") [] ] /\
  files (render (consume [Chunk twoFilesText; Chunk oneLine; Chunk markerOfCss]
                   (startGeneration idle))) =
    [ mkFile (lit "b.css") (lit "z();" ++ [NEWLINE]);
      mkFile (lit "a.js") [] ] /\
  files (render (consume [Chunk twoFilesText; Chunk oneLine; Render;
                          Chunk markerOfCss] (startGeneration idle))) =
    [ mkFile (lit "b.css") [];
      mkFile (lit "a.js") (lit "z();" ++ [NEWLINE]) ].
Proof. repeat split; vm_compute; reflexivity. Qed.

(* ===================================================================== *)
(** ** What a generation never takes back *)
(* ===================================================================== *)

Lemma grows_refl (fs : list FileData) : grows fs fs.
Proof.
  intros i f Hf. exists f, []. rewrite app_nil_r. auto.
Qed.

Lemma grows_trans (a b c : list FileData) :
  grows a b -> grows b c -> grows a c.
Proof.
  intros Hab Hbc i f Hf.
  destruct (Hab i f Hf) as [g [m1 [Hg [Hn1 Hc1]]]].
  destruct (Hbc i g Hg) as [h [m2 [Hh [Hn2 Hc2]]]].
  exists h, (m1 ++ m2). split; [assumption|]. split; [congruence|].
  rewrite Hc2, Hc1, app_assoc. reflexivity.
Qed.

Lemma grows_append_to (o : option jsstring) (text : jsstring)
    (fs : list FileData) :
  grows fs (append_to o text fs).
Proof.
  intros i f Hf. rewrite nth_error_append_to, Hf. cbn [option_map].
  destruct (named_by o f).
  - exists (mkFile (fileName f) (content f ++ text)), text. auto.
  - exists f, []. rewrite app_nil_r. auto.
Qed.

Lemma grows_add_if_absent (n : jsstring) (fs : list FileData) :
  grows fs (add_if_absent n fs).
Proof.
  unfold add_if_absent. destruct (some _ fs); [apply grows_refl|].
  intros i f Hf. exists f, []. rewrite app_nil_r.
  split; [|auto]. rewrite nth_error_app1; [assumption|].
  apply nth_error_Some. congruence.
Qed.

Lemma growing_markerUpdater (n : jsstring) : growing (markerUpdater n).
Proof. intros env fs. apply grows_add_if_absent. Qed.

Lemma growing_lineUpdater (line : jsstring) : growing (lineUpdater line).
Proof. intros env fs. apply grows_append_to. Qed.

Lemma growing_remainderUpdater : growing remainderUpdater.
Proof. intros env fs. apply grows_append_to. Qed.

Lemma flush_grows (env : Locals) (us : list Updater)
    (fs : list FileData) (active : jsstring) :
  Forall growing us -> grows fs (fst (flush env us (fs, active))).
Proof.
  intros H. revert fs active.
  induction H as [|u us Hu _ IH]; intros fs active.
  - apply grows_refl.
  - cbn [flush fold_left]. unfold apply_updater at 2. cbn [fst snd].
    eapply grows_trans; [apply Hu|]. apply IH.
Qed.

Lemma steady_render_grows (st : App) :
  steady st -> grows (files st) (files (render st)).
Proof. intros H. apply flush_grows. exact H. Qed.

Lemma steady_render (st : App) : steady (render st).
Proof. constructor. Qed.

Lemma steady_setFiles (u : Updater) (st : App) :
  growing u -> steady st -> steady (setFiles u st).
Proof.
  intros Hu Hst. unfold steady, setFiles. cbn [queue].
  apply Forall_app. split; [assumption|]. constructor; [assumption|constructor].
Qed.

Lemma process_line_steady (line : jsstring) (st : App) :
  steady st ->
  steady (process_line line st) /\ files (process_line line st) = files st.
Proof.
  intros Hst. unfold process_line.
  destruct (startsWith MARKER line).
  - destruct (truthy _); [|auto]. split; [|reflexivity].
    apply (steady_setFiles _ (set_currentFileName _ st)).
    + apply growing_markerUpdater.
    + exact Hst.
  - destruct (truthy_opt _); [|auto]. split; [|reflexivity].
    apply steady_setFiles; [apply growing_lineUpdater | exact Hst].
Qed.

Lemma drain_steady (st : App) :
  steady st -> steady (drain st) /\ files (drain st) = files st.
Proof.
  remember (length (buffer (vars st))) as n eqn:Hn.
  revert st Hn. induction n as [n IH] using lt_wf_ind. intros st Hn Hst.
  rewrite drain_loop.
  destruct (indexOf [NEWLINE] (buffer (vars st))) as [i|] eqn:Ei; [|auto].
  pose proof (indexOf_newline_lt _ _ Ei) as Hi.
  set (line := substring 0 i (buffer (vars st))).
  set (rest := substring_from (i + 1) (buffer (vars st))).
  destruct (process_line_steady line (set_buffer rest st) Hst) as [H1 H2].
  destruct (IH (length rest)) with (st := process_line line (set_buffer rest st))
    as [H3 H4].
  - subst rest n. unfold substring_from. rewrite length_skipn. lia.
  - rewrite process_line_buffer. reflexivity.
  - exact H1.
  - split; [exact H3|]. rewrite H4, H2. reflexivity.
Qed.

Lemma feed_steady (chunk : jsstring) (st : App) :
  steady st -> steady (feed chunk st) /\ files (feed chunk st) = files st.
Proof. intros Hst. apply (drain_steady (set_buffer _ st)). exact Hst. Qed.

(** From a steady state on, what [files] holds is kept by every later
    render. *)
Lemma consume_grows (events : list Event) (st : App) :
  steady st -> grows (files st) (files (render (consume events st))).
Proof.
  revert st. induction events as [|e events IH]; intros st Hst.
  - apply steady_render_grows. exact Hst.
  - change (consume (e :: events) st) with (consume events (step st e)).
    destruct e as [text|]; cbn [step].
    + destruct (feed_steady text st Hst) as [H1 H2].
      rewrite <- H2. apply IH. exact H1.
    + eapply grows_trans; [apply steady_render_grows; exact Hst|].
      apply IH. apply steady_render.
Qed.

Lemma consume_app (ev1 ev2 : list Event) (st : App) :
  consume (ev1 ++ ev2) st = consume ev2 (consume ev1 st).
Proof. unfold consume. apply fold_left_app. Qed.

(** X24.  During a generation nothing that a render showed is taken back
    by a later render of the stream: every entry is still at its place
    under its name, and its content then is a prefix of its content
    later. *)
Theorem shown_files_are_kept (st : App) (seen later : list Event) :
  grows (files (consume (seen ++ [Render]) (startGeneration st)))
        (files (render (consume (seen ++ Render :: later)
                          (startGeneration st)))).
Proof.
  replace (seen ++ Render :: later) with ((seen ++ [Render]) ++ later)
    by (rewrite <- app_assoc; reflexivity).
  rewrite (consume_app (seen ++ [Render]) later).
  apply consume_grows.
  rewrite consume_app. apply steady_render.
Qed.

(** C6.  A stream that throws does not leave the partial file set and an
    error message on the screen.  While [brokenStream] runs, React shows
    [a.js] with its first line; the [catch] block then sets the message,
    but in the same turn the [finally] block queues the updater of the
    formatting pass, so the render that follows stores a promise in
    [files] and the application is unmounted. *)
Theorem transport_error_unmounts :
  files (consume brokenStream (startGeneration idle)) =
    [ mkFile (lit "a.js") (lit "x();" ++ [NEWLINE]) ] /\
  error (cells (handleSubmit brokenStream (Some timeout) idle)) =
    Some (lit "Failed to generate code: timeout. Please check your API key and try again.") /\
  commit (handleSubmit brokenStream (Some timeout) idle) =
    Blank [ mkFile (lit "a.js") (lit "x();" ++ [NEWLINE]) ].
Proof. repeat split; vm_compute; reflexivity. Qed.

(* ===================================================================== *)
(** ** Preview composition *)
(* ===================================================================== *)

Lemma getSubstitution_plain (matched before after r : jsstring) :
  plainText r = true -> getSubstitution matched before after r = r.
Proof.
  induction r as [|c r IH]; intros H; [reflexivity|].
  cbn [plainText] in H. apply andb_true_iff in H. destruct H as [Hc Hr].
  cbn [getSubstitution]. destruct (N.eqb c DOLLAR).
  - destruct r as [|d r']; [reflexivity|].
    unfold isSubstitutionChar in Hc.
    destruct (N.eqb d DOLLAR); [discriminate|].
    destruct (N.eqb d AMPERSAND); [discriminate|].
    destruct (N.eqb d BACKTICK); [discriminate|].
    destruct (N.eqb d QUOTE); [discriminate|].
    rewrite (IH Hr). reflexivity.
  - rewrite (IH Hr). reflexivity.
Qed.

Lemma plainText_app (x y : jsstring) :
  plainText x = true -> plainText y = true -> safeStart y = true ->
  plainText (x ++ y) = true.
Proof.
  intros Hx Hy Hs. induction x as [|c r IH]; [assumption|].
  cbn [plainText] in Hx. apply andb_true_iff in Hx. destruct Hx as [Hc Hr].
  cbn [app plainText]. rewrite (IH Hr), andb_true_r.
  destruct (N.eqb c DOLLAR); [|reflexivity].
  destruct r as [|d r']; [|exact Hc].
  cbn [app]. destruct y; [reflexivity | exact Hs].
Qed.

Lemma plainText_after_text (x y : jsstring) :
  forallb (fun c => negb (N.eqb c DOLLAR)) x = true ->
  plainText y = true -> plainText (x ++ y) = true.
Proof.
  intros Hx Hy. induction x as [|c r IH]; [assumption|].
  cbn [forallb] in Hx. apply andb_true_iff in Hx. destruct Hx as [Hc Hr].
  cbn [app plainText]. rewrite (IH Hr), andb_true_r.
  destruct (N.eqb c DOLLAR); [discriminate | reflexivity].
Qed.

Lemma plainText_wrapped (opening text closing : jsstring) :
  forallb (fun c => negb (N.eqb c DOLLAR)) opening = true ->
  plainText text = true ->
  plainText closing = true -> safeStart closing = true ->
  plainText (opening ++ text ++ closing) = true.
Proof.
  intros Ho Ht Hc Hs. apply plainText_after_text; [assumption|].
  apply plainText_app; assumption.
Qed.

(** With a replacement text free of substitution patterns, [replace]
    injects the text before the first match. *)
Lemma replace_injects (tag opening text closing doc : jsstring) :
  plainText (opening ++ text ++ closing ++ tag) = true ->
  replace tag (opening ++ text ++ closing ++ tag) doc =
  inject_before tag (opening ++ text ++ closing) doc.
Proof.
  intros Hplain. unfold replace, inject_before.
  destruct (indexOf tag doc) as [i|] eqn:Ei; [|reflexivity].
  rewrite (getSubstitution_plain _ _ _ _ Hplain).
  unfold substring, substring_from. rewrite Nat.sub_0_r. cbn [skipn].
  rewrite (indexOf_Some_skipn _ _ _ Ei).
  rewrite <- !app_assoc. reflexivity.
Qed.

Lemma some_file_of_kind (p : FileData -> bool) (fs : list FileData) :
  (0 <? length (filter p fs)) = existsb p fs.
Proof.
  induction fs as [|f fs IH]; [reflexivity|].
  cbn [filter existsb]. destruct (p f); [reflexivity | exact IH].
Qed.

Lemma inject_before_first (tag text doc : jsstring) (i : nat) :
  first_occurrence tag doc i ->
  inject_before tag text doc = firstn i doc ++ text ++ skipn i doc.
Proof.
  intros H. unfold inject_before.
  rewrite (first_occurrence_indexOf _ _ _ H). reflexivity.
Qed.

Lemma inject_before_absent (tag text doc : jsstring) :
  (forall before after, doc <> before ++ tag ++ after) ->
  inject_before tag text doc = doc.
Proof.
  intros H. unfold inject_before.
  destruct (indexOf tag doc) as [i|] eqn:Ei; [|reflexivity].
  destruct (indexOf_first_occurrence _ _ _ Ei) as [[after Ha] _].
  exfalso. exact (H _ _ Ha).
Qed.

(** C3, as the code has it.  When the collected style and script texts
    hold no dollar sign followed by [$], [&], a backtick or a quote, the
    preview is the base document with the style element injected
    immediately before the first [</head>] if and only if the file set
    has a [.css] file, even one without content, and then the script
    element injected immediately before the first [</body>] of the
    document so far if and only if the file set has a [.js] file.  A
    missing tag skips the injection.  Without an [.html] file the preview
    is the fixed fallback document. *)
Theorem compose_injection_rule (fs : list FileData) :
  plainText (cssContent fs) = true ->
  plainText (jsContent fs) = true ->
  htmlContent fs = compose_by_files fs /\
  (forall tag text doc i, first_occurrence tag doc i ->
     inject_before tag text doc = firstn i doc ++ text ++ skipn i doc) /\
  (forall tag text doc,
     (forall before after, doc <> before ++ tag ++ after) ->
     inject_before tag text doc = doc).
Proof.
  intros Hcss Hjs.
  split; [|split; [exact inject_before_first | exact inject_before_absent]].
  unfold htmlContent, compose_by_files.
  destruct (find isHtml fs) as [base|]; [|reflexivity].
  cbn zeta. rewrite !some_file_of_kind.
  assert (Hstyle : forall doc,
    replace HEAD_CLOSE (lit "<style>" ++ cssContent fs ++ lit "</style></head>")
      doc = inject_before HEAD_CLOSE (styleElement (cssContent fs)) doc).
  { intros doc.
    change (lit "</style></head>") with (lit "</style>" ++ HEAD_CLOSE).
    apply replace_injects.
    apply plainText_wrapped; [reflexivity | assumption | reflexivity
                             | reflexivity]. }
  assert (Hscript : forall doc,
    replace BODY_CLOSE (lit "<script>" ++ jsContent fs ++ lit "</script></body>")
      doc = inject_before BODY_CLOSE (scriptElement (jsContent fs)) doc).
  { intros doc.
    change (lit "</script></body>") with (lit "</script>" ++ BODY_CLOSE).
    apply replace_injects.
    apply plainText_wrapped; [reflexivity | assumption | reflexivity
                             | reflexivity]. }
  rewrite Hstyle, Hscript. reflexivity.
Qed.

Lemma compose_injection_rule_witness :
  htmlContent sampleProject =
    lit "<head><style>a{}</style></head><body><script>x()</script></body>".
Proof.
  assert (Hcss : plainText (cssContent sampleProject) = true) by reflexivity.
  assert (Hjs : plainText (jsContent sampleProject) = true) by reflexivity.
  rewrite (proj1 (compose_injection_rule sampleProject Hcss Hjs)).
  vm_compute. reflexivity.
Defined.

(** C3, as the specification has it, fails on a project whose only style
    sheet is empty: the code injects an empty style element; the
    specification injects nothing. *)
Lemma empty_css_is_injected :
  htmlContent emptyCssProject =
    lit "<head><style></style></head><body></body>" /\
  compose_spec emptyCssProject = lit "<head></head><body></body>" /\
  htmlContent emptyCssProject <> compose_spec emptyCssProject.
Proof.
  split; [vm_compute; reflexivity|]. split; [vm_compute; reflexivity|].
  vm_compute. discriminate.
Qed.

(** A dollar sign before a quote is a replacement pattern: the preview of
    [dollarProject] holds the text after the match in its place. *)
Lemma dollar_pattern_is_expanded :
  htmlContent dollarProject = lit "<body><script>f(')</script></body>".
Proof. vm_compute. reflexivity. Qed.

(* ===================================================================== *)
(** ** The active file *)
(* ===================================================================== *)

Lemma firstFileName_eq (fs : list FileData) :
  firstFileName fs = match fs with [] => [] | f :: _ => fileName f end.
Proof.
  destruct fs as [|f fs]; [reflexivity|].
  unfold firstFileName. cbn. destruct (fileName f); reflexivity.
Qed.

Lemma reconcile_kept (st : App) :
  In (activeFileName st) (map fileName (files st)) -> reconcile st = st.
Proof.
  intros H. unfold reconcile. apply some_fileName in H. rewrite H. reflexivity.
Qed.

Lemma reconcile_reset (st : App) :
  ~ In (activeFileName st) (map fileName (files st)) ->
  reconcile st = setActiveFileName (firstFileName (files st)) st.
Proof.
  intros H. unfold reconcile.
  destruct (some _ (files st)) eqn:E; [|reflexivity].
  apply some_fileName in E. contradiction.
Qed.

Lemma render_handleDeleteFile (name : jsstring) (st : App) :
  let newFiles :=
    filter (fun f => negb (str_eqb (fileName f) name)) (files (render st)) in
  files (render (handleDeleteFile name st)) = newFiles /\
  activeFileName (render (handleDeleteFile name st)) =
    if str_eqb (activeFileName st) name
    then firstFileName newFiles
    else activeFileName (render st).
Proof.
  intros newFiles. unfold handleDeleteFile. split.
  - rewrite files_render_setFiles. reflexivity.
  - rewrite active_render_setFiles. cbn [snd].
    destruct (str_eqb (activeFileName st) name); reflexivity.
Qed.

(** C7.  The reconciliation effect changes nothing but the active name,
    keeps an active name that names an entry, and resets any other to the
    name of the first entry, or to the empty string when there is no
    entry; after it the active name names an entry unless the set is
    empty.  It runs after every render, whatever operation changed the
    state.  Deleting the active file makes the first remaining entry
    active, or none when nothing remains, and [handleDeleteFile] deletes
    the only file of a set as well. *)
Theorem active_file_reconciliation :
  (forall st,
     let r := reconcile st in
     files r = files st /\
     (In (activeFileName st) (map fileName (files st)) ->
        activeFileName r = activeFileName st) /\
     (~ In (activeFileName st) (map fileName (files st)) ->
        activeFileName r =
          match files st with [] => [] | f :: _ => fileName f end) /\
     (In (activeFileName r) (map fileName (files r)) \/
      (files r = [] /\ activeFileName r = []))) /\
  (forall st name,
     queue st = [] ->
     let st' := render (handleDeleteFile name st) in
     files st' =
       filter (fun f => negb (str_eqb (fileName f) name)) (files st) /\
     (activeFileName st = name ->
        activeFileName st' =
          match files st' with [] => [] | f :: _ => fileName f end) /\
     (activeFileName st <> name -> activeFileName st' = activeFileName st)) /\
  (forall st f,
     queue st = [] -> files st = [f] ->
     files (render (handleDeleteFile (fileName f) st)) = []).
Proof.
  split; [|split].
  - intros st r. subst r.
    destruct (in_dec (list_eq_dec N.eq_dec) (activeFileName st)
                (map fileName (files st))) as [Hin|Hout].
    + rewrite (reconcile_kept st Hin).
      split; [reflexivity|]. split; [reflexivity|].
      split; [contradiction|]. left. exact Hin.
    + rewrite (reconcile_reset st Hout). cbn [setActiveFileName files activeFileName].
      rewrite firstFileName_eq.
      split; [reflexivity|]. split; [contradiction|]. split; [reflexivity|].
      destruct (files st) as [|f fs]; [right; auto|].
      left. cbn [map]. left. reflexivity.
  - intros st name Hq st'. subst st'.
    destruct (render_handleDeleteFile name st) as [Hfiles Hactive].
    destruct (render_idle st Hq) as [Hf Ha].
    cbn zeta in Hfiles, Hactive. rewrite Hf in Hfiles, Hactive.
    rewrite Ha in Hactive.
    split; [exact Hfiles|]. split.
    + intros Heq. rewrite Hactive, Hfiles.
      apply str_eqb_eq in Heq. rewrite Heq. apply firstFileName_eq.
    + intros Hneq. rewrite Hactive.
      apply str_eqb_neq in Hneq. rewrite Hneq. reflexivity.
  - intros st f Hq Hone.
    destruct (render_handleDeleteFile (fileName f) st) as [Hfiles _].
    destruct (render_idle st Hq) as [Hf _].
    cbn zeta in Hfiles. rewrite Hfiles, Hf, Hone.
    cbn [filter]. rewrite str_eqb_refl. reflexivity.
Qed.

Lemma active_file_reconciliation_witness :
  let st := mkApp [] (firstn 1 DEFAULT_FILES) (lit "index.html") false None []
                  (mkLocals None []) in
  let st' := render (handleDeleteFile (lit "index.html") st) in
  files st' = [] /\ activeFileName st' = [].
Proof.
  intros st st'.
  destruct active_file_reconciliation as [_ [Hdelete _]].
  destruct (Hdelete st (lit "index.html") eq_refl) as [Hfiles [Hactive _]].
  fold st' in Hfiles, Hactive.
  assert (Hempty : files st' = []) by (rewrite Hfiles; reflexivity).
  split; [exact Hempty|].
  rewrite (Hactive eq_refl), Hempty. reflexivity.
Defined.

(* ===================================================================== *)
(** ** Creating a file *)
(* ===================================================================== *)

Lemma some_lower_name (toLowerCase : jsstring -> jsstring)
    (name : jsstring) (fs : list FileData) :
  some (fun f => str_eqb (toLowerCase f) (toLowerCase name))
       (map fileName fs) = true
  <-> exists f, In f fs /\ toLowerCase (fileName f) = toLowerCase name.
Proof.
  unfold some. rewrite existsb_exists. split.
  - intros [n [Hin Heq]]. apply in_map_iff in Hin.
    destruct Hin as [f [Hf Hin]]. exists f. split; [assumption|].
    apply str_eqb_eq in Heq. congruence.
  - intros [f [Hin Heq]]. exists (fileName f). split.
    + apply in_map. assumption.
    + apply str_eqb_eq. assumption.
Qed.

(** C8.  With [name] the typed text trimmed: an empty [name] is refused
    with the empty-name message; a non-empty [name] that equals the name
    of an existing file once both are lower-cased is refused with the
    duplicate-name message; in both cases the state is untouched.  Any
    other [name] is appended as an entry without content and becomes the
    active file. *)
Theorem createFile_validation (toLowerCase : jsstring -> jsstring)
    (st : App) (typed : jsstring) :
  let name := trim typed in
  let duplicate :=
    exists f, In f (files st) /\
              toLowerCase (fileName f) = toLowerCase name in
  (name = [] -> createFile toLowerCase typed st = (st, Some EMPTY_NAME)) /\
  (name <> [] -> duplicate ->
     createFile toLowerCase typed st = (st, Some (DUPLICATE_NAME name))) /\
  (name = [] \/ duplicate ->
     fst (createFile toLowerCase typed st) = st /\
     snd (createFile toLowerCase typed st) <> None) /\
  (name <> [] -> ~ duplicate ->
     let st' := fst (createFile toLowerCase typed st) in
     snd (createFile toLowerCase typed st) = None /\
     activeFileName st' = name /\
     files (render st') = files (render st) ++ [mkFile name []] /\
     (queue st = [] ->
        files (render st') = files st ++ [mkFile name []] /\
        activeFileName (render st') = name)).
Proof.
  intros name duplicate.
  assert (Hempty : name = [] ->
            createFile toLowerCase typed st = (st, Some EMPTY_NAME)).
  { intros H. unfold createFile, NewFileModal_handleSubmit.
    fold name. rewrite H. reflexivity. }
  assert (Hdup : name <> [] -> duplicate ->
            createFile toLowerCase typed st =
              (st, Some (DUPLICATE_NAME name))).
  { intros Hne Hd. unfold createFile, NewFileModal_handleSubmit. fold name.
    apply truthy_true in Hne. rewrite Hne. cbn [negb].
    apply some_lower_name in Hd. rewrite Hd. reflexivity. }
  split; [exact Hempty|]. split; [exact Hdup|]. split.
  - intros [H|H].
    + rewrite (Hempty H). split; [reflexivity | discriminate].
    + destruct name as [|c n] eqn:En.
      * rewrite (Hempty eq_refl). split; [reflexivity | discriminate].
      * rewrite (Hdup ltac:(discriminate) H).
        split; [reflexivity | discriminate].
  - intros Hne Hnd.
    assert (Hok : createFile toLowerCase typed st =
                    (handleCreateFile name st, None)).
    { unfold createFile, NewFileModal_handleSubmit. fold name.
      apply truthy_true in Hne. rewrite Hne. cbn [negb].
      destruct (some _ (map fileName (files st))) eqn:E; [|reflexivity].
      apply some_lower_name in E. contradiction. }
    rewrite Hok. cbn [fst snd].
    split; [reflexivity|]. split; [reflexivity|].
    assert (Hfiles : files (render (handleCreateFile name st)) =
                       files (render st) ++ [mkFile name []]).
    { unfold handleCreateFile.
      rewrite files_render_setActiveFileName, files_render_setFiles.
      reflexivity. }
    split; [exact Hfiles|].
    intros Hq. split.
    + rewrite Hfiles. rewrite (proj1 (render_idle st Hq)). reflexivity.
    + unfold handleCreateFile, render, setActiveFileName, setFiles.
      cbn [files queue vars activeFileName]. rewrite Hq. reflexivity.
Qed.

Lemma createFile_validation_witness :
  let st := mkApp [] DEFAULT_FILES (lit "index.html") false None []
                  (mkLocals None []) in
  createFile asciiLowerCase (lit "  ") st = (st, Some EMPTY_NAME) /\
  createFile asciiLowerCase (lit " Style.CSS ") st =
    (st, Some (DUPLICATE_NAME (lit "Style.CSS"))) /\
  files (render (fst (createFile asciiLowerCase (lit "app.js") st))) =
    DEFAULT_FILES ++ [mkFile (lit "app.js") []] /\
  activeFileName (render (fst (createFile asciiLowerCase (lit "app.js") st))) =
    lit "app.js".
Proof.
  intros st.
  destruct (createFile_validation asciiLowerCase st (lit "  "))
    as [Hempty _].
  destruct (createFile_validation asciiLowerCase st (lit " Style.CSS "))
    as [_ [Hdup _]].
  destruct (createFile_validation asciiLowerCase st (lit "app.js"))
    as [_ [_ [_ Hnew]]].
  split; [apply Hempty; reflexivity|]. split.
  - apply Hdup; [discriminate|].
    exists (mkFile (lit "style.css") (content (nth 1 DEFAULT_FILES (mkFile [] [])))).
    split; [right; left; reflexivity | reflexivity].
  - assert (Hne : trim (lit "app.js") <> []) by discriminate.
    assert (Hnd : ~ (exists f, In f (files st) /\
                       asciiLowerCase (fileName f) =
                       asciiLowerCase (trim (lit "app.js")))).
    { intros [f [Hin Heq]]. cbn [files st] in Hin.
      destruct Hin as [<-|[<-|[<-|[]]]]; vm_compute in Heq; discriminate. }
    destruct (Hnew Hne Hnd) as [_ [_ [_ Hrendered]]].
    exact (Hrendered eq_refl).
Defined.

(* ===================================================================== *)
(** ** Snippet suggestions *)
(* ===================================================================== *)

Section SnippetFacts.

Variable JSON_parse : jsstring -> Try JsonValue.
Variable callOnUndefined readOfNull : Thrown.

Let fetch := fetchSnippets JSON_parse callOnUndefined readOfNull.
Let handle := handleFetchSnippets JSON_parse callOnUndefined readOfNull.

Lemma handle_after_throw (outcome : ApiOutcome) (p : Panel) (e : Thrown) :
  fetch outcome = Throw e ->
  handle outcome p = mkPanel [] false (Some (snippetError e)).
Proof.
  intros H. unfold handle, handleFetchSnippets. fold fetch. rewrite H.
  reflexivity.
Qed.

Lemma handle_after_value (outcome : ApiOutcome) (p : Panel)
    (items : list JsonValue) :
  fetch outcome = Value items ->
  handle outcome p = mkPanel items false None.
Proof.
  intros H. unfold handle, handleFetchSnippets. fold fetch. rewrite H.
  reflexivity.
Qed.

Lemma snippetsOf_shape (parsed : JsonValue) (items : list JsonValue) :
  snippetsOf readOfNull parsed = Value items <->
  exists properties,
    parsed = JObject properties /\
    getProperty (lit "snippets") properties = Some (JArray items).
Proof.
  split.
  - destruct parsed as [ | | | | |properties]; cbn [snippetsOf];
      try discriminate.
    destruct (getProperty _ properties) as [[ | | | |found| ]|] eqn:E;
      try discriminate.
    intros H. inversion H. subst. exists properties. auto.
  - intros [properties [-> H]]. cbn [snippetsOf]. rewrite H. reflexivity.
Qed.

(** C10.  Whatever the panel held before, a fetch leaves either the
    snippets of the response and no error, or no snippet at all and the
    error message: a snippet error never comes with snippets, old or new.
    The fetch fails in this way when the request is rejected, and when
    the response parses to a value that is not an object with an array
    under [snippets]. *)
Theorem snippet_failure_clears_list (outcome : ApiOutcome) (p : Panel) :
  (match fetch outcome with
   | Value items =>
       handle outcome p = mkPanel items false None
   | Throw e =>
       handle outcome p = mkPanel [] false (Some (snippetError e))
   end) /\
  (snippetsError (handle outcome p) <> None ->
     snippets (handle outcome p) = []) /\
  (forall e, outcome = Rejects e ->
     handle outcome p = mkPanel [] false (Some (snippetError e))) /\
  (forall text parsed,
     outcome = Resolves (Some text) ->
     JSON_parse (trim text) = Value parsed ->
     (forall properties items,
        parsed = JObject properties ->
        getProperty (lit "snippets") properties <> Some (JArray items)) ->
     snippets (handle outcome p) = [] /\
     snippetsError (handle outcome p) <> None).
Proof.
  assert (Hcases : match fetch outcome with
                   | Value items =>
                       handle outcome p = mkPanel items false None
                   | Throw e =>
                       handle outcome p =
                         mkPanel [] false (Some (snippetError e))
                   end).
  { destruct (fetch outcome) as [items|e] eqn:E.
    - apply handle_after_value. exact E.
    - apply handle_after_throw. exact E. }
  split; [exact Hcases|]. split; [|split].
  - destruct (fetch outcome) as [items|e]; rewrite Hcases; cbn.
    + congruence.
    + reflexivity.
  - intros e ->. apply handle_after_throw. reflexivity.
  - intros text parsed -> Hparse Hshape.
    assert (Hthrow : exists e, fetch (Resolves (Some text)) = Throw e).
    { unfold fetch, fetchSnippets. cbn [bindTry]. rewrite Hparse.
      cbn [bindTry].
      destruct (snippetsOf readOfNull parsed) as [items|e] eqn:E.
      - apply snippetsOf_shape in E. destruct E as [properties [Hp Hg]].
        exfalso. exact (Hshape properties items Hp Hg).
      - exists e. reflexivity. }
    destruct Hthrow as [e He].
    rewrite (handle_after_throw _ p e He). cbn. split; [reflexivity|discriminate].
Qed.

End SnippetFacts.

Lemma snippet_failure_clears_list_witness :
  let parse := fun _ : jsstring => Value (JObject [(lit "snippets", JNull)]) in
  let before := mkPanel [JString (lit "old()")] false None in
  let after :=
    handleFetchSnippets parse OtherValue OtherValue
      (Resolves (Some (lit "{}"))) before in
  snippets after = [] /\ snippetsError after <> None.
Proof.
  intros parse before after.
  destruct (snippet_failure_clears_list parse OtherValue OtherValue
              (Resolves (Some (lit "{}"))) before) as [_ [_ [_ Hshape]]].
  apply (Hshape (lit "{}") (JObject [(lit "snippets", JNull)]));
    [reflexivity | reflexivity |].
  intros properties items Hp Hg. inversion Hp. subst properties.
  vm_compute in Hg. discriminate.
Defined.

(* ===================================================================== *)
(** ** The demuxer when every line is rendered before the next arrives *)
(* ===================================================================== *)

Lemma indexOf_newline_end (line : jsstring) :
  ~ In NEWLINE line ->
  indexOf [NEWLINE] (line ++ [NEWLINE]) = Some (length line).
Proof.
  induction line as [|c line IH]; intros H; [reflexivity|].
  cbn [app]. rewrite indexOf_cons. cbn [startsWith].
  destruct (N.eqb NEWLINE c) eqn:E.
  - apply N.eqb_eq in E. exfalso. apply H. left. symmetry. exact E.
  - cbn [andb]. rewrite IH; [reflexivity|].
    intros Hin. apply H. right. exact Hin.
Qed.

(** A chunk that is one complete line is one turn of the loop. *)
Lemma feed_one_line (line : jsstring) (st : App) :
  ~ In NEWLINE line ->
  buffer (vars st) = [] ->
  feed (line ++ [NEWLINE]) st = process_line line st.
Proof.
  intros Hline Hbuf. unfold feed. rewrite Hbuf. cbn [app].
  rewrite drain_loop, buffer_set_buffer, (indexOf_newline_end line Hline).
  rewrite set_buffer_set_buffer.
  unfold substring, substring_from. rewrite Nat.sub_0_r. cbn [skipn].
  rewrite firstn_app, Nat.sub_diag, firstn_all. cbn [firstn].
  rewrite app_nil_r.
  rewrite skipn_app, skipn_all2 by lia.
  replace (length line + 1 - length line) with 1 by lia. cbn [skipn app].
  rewrite drain_loop, process_line_buffer, buffer_set_buffer.
  cbn [indexOf startsWith].
  replace (set_buffer [] st) with st; [reflexivity|].
  destruct st as [p f a l e q [cur buf]]. cbn in Hbuf. subst buf. reflexivity.
Qed.

(** One line, then a render, is one step of the specification's rule. *)
Lemma rendered_line_is_spec_line (line : jsstring) (st : App) :
  ~ In NEWLINE line ->
  queue st = [] ->
  buffer (vars st) = [] ->
  let st' := render (feed (line ++ [NEWLINE]) st) in
  shown st' = spec_line (shown st) line /\
  queue st' = [] /\ buffer (vars st') = [].
Proof.
  intros Hline Hq Hbuf st'. subst st'.
  rewrite (feed_one_line line st Hline Hbuf).
  split; [|split; [reflexivity|]].
  - unfold process_line, spec_line, shown.
    cbn [target fileSet active].
    destruct (startsWith MARKER line).
    + destruct (truthy (trim (substring_from (length MARKER) line)));
        unfold render; cbn [files queue vars activeFileName
                            setActiveFileName setFiles set_currentFileName
                            set_vars]; rewrite Hq; reflexivity.
    + destruct (truthy_opt (currentFileName (vars st)));
        unfold render; cbn [files queue vars activeFileName setFiles];
        rewrite Hq; reflexivity.
  - cbn [render vars]. rewrite process_line_buffer. exact Hbuf.
Qed.

(** X21.  Delivered line by line, with a render after each line, a
    stream is demultiplexed as the specification says. *)
Lemma line_by_line_is_spec (lines : list jsstring) (st : App) :
  Forall (fun line => ~ In NEWLINE line) lines ->
  queue st = [] ->
  buffer (vars st) = [] ->
  shown (consume (lineByLine lines) st) = fold_left spec_line lines (shown st).
Proof.
  intros Hlines. revert st.
  induction Hlines as [|line lines Hline _ IH]; intros st Hq Hbuf;
    [reflexivity|].
  change (consume (lineByLine (line :: lines)) st)
    with (consume (lineByLine lines)
            (render (feed (line ++ [NEWLINE]) st))).
  destruct (rendered_line_is_spec_line line st Hline Hq Hbuf)
    as [Hshown [Hq' Hbuf']].
  rewrite (IH _ Hq' Hbuf'). cbn [fold_left]. rewrite Hshown. reflexivity.
Qed.

(* ===================================================================== *)
(** ** File kinds: formatter, preview and editor *)
(* ===================================================================== *)

Lemma endsWith_iff (suffix s : jsstring) :
  endsWith suffix s = true <-> exists p, s = p ++ suffix.
Proof.
  unfold endsWith, substring_from. split.
  - intros H. apply andb_true_iff in H. destruct H as [_ H].
    apply str_eqb_eq in H. exists (firstn (length s - length suffix) s).
    transitivity (firstn (length s - length suffix) s
                  ++ skipn (length s - length suffix) s).
    + symmetry. apply firstn_skipn.
    + rewrite H. reflexivity.
  - intros [p ->]. rewrite length_app. apply andb_true_iff. split.
    + apply Nat.leb_le. lia.
    + replace (length p + length suffix - length suffix) with (length p) by lia.
      rewrite skipn_app, skipn_all, Nat.sub_diag. cbn [skipn app].
      apply str_eqb_refl.
Qed.

Lemma endsWith_last2 (suffix s : jsstring) :
  2 <= length suffix -> endsWith suffix s = true -> last2 s = last2 suffix.
Proof.
  intros Hlen H. apply endsWith_iff in H. destruct H as [p ->].
  unfold last2. rewrite rev_app_distr.
  assert (Hr : length (rev suffix) = length suffix) by apply length_rev.
  destruct (rev suffix) as [|y [|x t]]; cbn [length] in Hr; try lia.
  reflexivity.
Qed.

Ltac endings :=
  repeat match goal with
         | H : endsWith ?suffix ?s = true |- _ =>
             lazymatch goal with
             | _ : last2 s = last2 suffix |- _ => fail
             | _ => idtac
             end;
             let L := fresh "L" in
             pose proof (endsWith_last2 suffix s ltac:(cbn; lia) H) as L
         end;
  repeat match goal with
         | L : last2 _ = last2 ?suffix |- _ =>
             let v := eval vm_compute in (last2 suffix) in
             change (last2 suffix) with v in L
         end.

(** X1.  [getParser] decides by the ending of the name alone, and the
    order of its tests does not matter: no name has two of the endings
    that lead to different parsers. *)
Theorem getParser_by_suffix (name : jsstring) :
  (getParser name = Some ParserHtml <-> endsWith (lit ".html") name = true) /\
  (getParser name = Some ParserCss <-> endsWith (lit ".css") name = true) /\
  (getParser name = Some ParserBabel <->
     endsWith (lit ".js") name = true \/ endsWith (lit ".jsx") name = true \/
     endsWith (lit ".ts") name = true \/ endsWith (lit ".tsx") name = true) /\
  (getParser name = None <->
     endsWith (lit ".html") name = false /\
     endsWith (lit ".css") name = false /\
     endsWith (lit ".js") name = false /\
     endsWith (lit ".jsx") name = false /\
     endsWith (lit ".ts") name = false /\
     endsWith (lit ".tsx") name = false).
Proof.
  unfold getParser.
  destruct (endsWith (lit ".html") name) eqn:E1;
  destruct (endsWith (lit ".css") name) eqn:E2;
  destruct (endsWith (lit ".js") name) eqn:E3;
  destruct (endsWith (lit ".jsx") name) eqn:E4;
  destruct (endsWith (lit ".ts") name) eqn:E5;
  destruct (endsWith (lit ".tsx") name) eqn:E6;
  cbn [orb]; endings;
  try (exfalso; congruence);
  repeat split; intros; try discriminate; try reflexivity;
  try (exfalso; congruence);
  repeat match goal with
         | H : _ /\ _ |- _ => destruct H
         | H : _ \/ _ |- _ => destruct H
         end; try discriminate; auto.
Qed.

(** X2.  A file is at most one of: base document, style sheet, script of
    the preview; each kind has its parser in the formatter.  Names ending
    in [.jsx], [.ts] or [.tsx] are formatted as scripts but are never
    inlined in the preview. *)
Theorem preview_kinds_and_parsers (f : FileData) :
  (isHtml f = true ->
     getParser (fileName f) = Some ParserHtml /\
     isCss f = false /\ isJs f = false) /\
  (isCss f = true ->
     getParser (fileName f) = Some ParserCss /\
     isHtml f = false /\ isJs f = false) /\
  (isJs f = true ->
     getParser (fileName f) = Some ParserBabel /\
     isHtml f = false /\ isCss f = false) /\
  (endsWith (lit ".jsx") (fileName f) = true \/
   endsWith (lit ".ts") (fileName f) = true \/
   endsWith (lit ".tsx") (fileName f) = true ->
     getParser (fileName f) = Some ParserBabel /\
     isHtml f = false /\ isCss f = false /\ isJs f = false).
Proof.
  unfold isHtml, isCss, isJs, getParser.
  destruct (endsWith (lit ".html") (fileName f)) eqn:E1;
  destruct (endsWith (lit ".css") (fileName f)) eqn:E2;
  destruct (endsWith (lit ".js") (fileName f)) eqn:E3;
  destruct (endsWith (lit ".jsx") (fileName f)) eqn:E4;
  destruct (endsWith (lit ".ts") (fileName f)) eqn:E5;
  destruct (endsWith (lit ".tsx") (fileName f)) eqn:E6;
  cbn [orb]; endings;
  try (exfalso; congruence);
  (split; [|split; [|split]]); intros H;
  try discriminate H;
  try (destruct H as [H|[H|H]]; try discriminate H);
  repeat split; reflexivity.
Qed.

Lemma preview_kinds_and_parsers_witness :
  getParser (lit "App.tsx") = Some ParserBabel /\
  isHtml (mkFile (lit "App.tsx") []) = false /\
  isCss (mkFile (lit "App.tsx") []) = false /\
  isJs (mkFile (lit "App.tsx") []) = false.
Proof.
  apply (proj2 (proj2 (proj2
           (preview_kinds_and_parsers (mkFile (lit "App.tsx") []))))).
  right. right. reflexivity.
Defined.

(* --------------------------------------------------------------------- *)
(** *** Extensions *)

Lemma split_nonempty (sep : char16) (s : jsstring) : split sep s <> [].
Proof.
  destruct s as [|c r]; cbn [split]; [discriminate|].
  destruct (N.eqb c sep); [discriminate|].
  destruct (split sep r); discriminate.
Qed.

Lemma split_app (sep : char16) (p e : jsstring) :
  split sep (p ++ sep :: e) = split sep p ++ split sep e.
Proof.
  induction p as [|c p IH]; cbn [app split].
  - rewrite N.eqb_refl. reflexivity.
  - destruct (N.eqb c sep); [rewrite IH; reflexivity|].
    rewrite IH. pose proof (split_nonempty sep p) as Hp.
    destruct (split sep p); [contradiction | reflexivity].
Qed.

Lemma split_plain (sep : char16) (s : jsstring) :
  ~ In sep s -> split sep s = [s].
Proof.
  induction s as [|c r IH]; intros H; [reflexivity|].
  cbn [split]. destruct (N.eqb c sep) eqn:E.
  - apply N.eqb_eq in E. exfalso. apply H. left. exact E.
  - rewrite IH; [reflexivity|]. intros Hin. apply H. right. exact Hin.
Qed.

Lemma pop_app {A : Type} (xs ys : list A) :
  ys <> [] -> pop (xs ++ ys) = pop ys.
Proof.
  intros Hy. induction xs as [|x xs IH]; [reflexivity|].
  cbn [app]. destruct (xs ++ ys) eqn:E.
  - destruct xs; [cbn in E; contradiction | discriminate].
  - cbn [pop]. exact IH.
Qed.

Lemma extensionOf_plain (toLowerCase : jsstring -> jsstring)
    (name : jsstring) :
  ~ In DOT name -> extensionOf toLowerCase name = Some (toLowerCase name).
Proof.
  intros H. unfold extensionOf. rewrite (split_plain DOT name H). reflexivity.
Qed.

Lemma extensionOf_dotted (toLowerCase : jsstring -> jsstring)
    (stem e : jsstring) :
  ~ In DOT e ->
  extensionOf toLowerCase (stem ++ DOT :: e) = Some (toLowerCase e).
Proof.
  intros H. unfold extensionOf.
  rewrite split_app, pop_app by apply split_nonempty.
  rewrite (split_plain DOT e H). reflexivity.
Qed.

(** X4.  The extension of a name is the text after its last dot, in lower
    case; a name without a dot is its own extension. *)
Theorem extension_is_last_segment (toLowerCase : jsstring -> jsstring) :
  (forall name, ~ In DOT name ->
     extensionOf toLowerCase name = Some (toLowerCase name)) /\
  (forall stem e, ~ In DOT e ->
     extensionOf toLowerCase (stem ++ DOT :: e) = Some (toLowerCase e)).
Proof.
  split.
  - intros name H. apply extensionOf_plain. exact H.
  - intros stem e H. apply extensionOf_dotted. exact H.
Qed.

Lemma extension_is_last_segment_witness :
  extensionOf asciiLowerCase (lit "md") = Some (lit "md") /\
  extensionOf asciiLowerCase (lit "jquery.min.JS") = Some (lit "js").
Proof.
  destruct (extension_is_last_segment asciiLowerCase) as [Hplain Hdot].
  split.
  - apply (Hplain (lit "md")). vm_compute. intros H.
    repeat (destruct H as [H|H]; [discriminate H|]). exact H.
  - apply (Hdot (lit "jquery.min") (lit "JS")). vm_compute. intros H.
    repeat (destruct H as [H|H]; [discriminate H|]). exact H.
Defined.

Lemma extension_of_ending (toLowerCase : jsstring -> jsstring)
    (e : string) (name : jsstring) :
  ~ In DOT (lit e) ->
  toLowerCase (lit e) = lit e ->
  endsWith (DOT :: lit e) name = true ->
  extensionOf toLowerCase name = Some (lit e).
Proof.
  intros Hdot Hlow H. apply endsWith_iff in H. destruct H as [stem ->].
  rewrite (extensionOf_dotted toLowerCase stem (lit e) Hdot).
  rewrite Hlow. reflexivity.
Qed.

Lemma getParser_ending (name : jsstring) :
  match getParser name with
  | Some ParserHtml => endsWith (lit ".html") name = true
  | Some ParserCss => endsWith (lit ".css") name = true
  | Some ParserBabel =>
      endsWith (lit ".js") name = true \/ endsWith (lit ".jsx") name = true \/
      endsWith (lit ".ts") name = true \/ endsWith (lit ".tsx") name = true
  | None => True
  end.
Proof.
  unfold getParser.
  destruct (endsWith (lit ".html") name) eqn:E1; [reflexivity|].
  destruct (endsWith (lit ".css") name) eqn:E2; [reflexivity|].
  destruct (endsWith (lit ".js") name) eqn:E3; [cbn; auto|].
  destruct (endsWith (lit ".jsx") name) eqn:E4; [cbn; auto|].
  destruct (endsWith (lit ".ts") name) eqn:E5; [cbn; auto|].
  destruct (endsWith (lit ".tsx") name) eqn:E6; [cbn; auto 6|].
  exact I.
Qed.

(** X5.  When [toLowerCase] leaves the six lower-case extensions as they
    are, the editor agrees with the formatter: a file formatted as HTML
    is edited as [html] under the HTML icon, a file formatted as CSS as
    [css] under the CSS icon, and a file formatted as a script as
    [javascript] or [typescript] under a script icon. *)
Theorem editor_agrees_with_formatter (toLowerCase : jsstring -> jsstring)
    (name : jsstring) :
  Forall (fun e => toLowerCase (lit e) = lit e) knownExtensions ->
  match getParser name with
  | Some ParserHtml =>
      getLanguage toLowerCase name = lit "html" /\
      GetFileIcon toLowerCase name = HtmlOrange
  | Some ParserCss =>
      getLanguage toLowerCase name = lit "css" /\
      GetFileIcon toLowerCase name = CssBlue
  | Some ParserBabel =>
      (getLanguage toLowerCase name = lit "javascript" /\
       GetFileIcon toLowerCase name = JsYellow) \/
      (getLanguage toLowerCase name = lit "typescript" /\
       GetFileIcon toLowerCase name = JsCyan)
  | None => True
  end.
Proof.
  intros Hlow.
  assert (Hext : forall e, In e knownExtensions ->
            endsWith (DOT :: lit e) name = true ->
            extensionOf toLowerCase name = Some (lit e)).
  { intros e Hin. apply extension_of_ending.
    - unfold knownExtensions in Hin. cbn [In] in Hin.
      repeat (destruct Hin as [<-|Hin]); try contradiction;
        vm_compute; intros H;
        repeat (destruct H as [H|H]; [discriminate H|]); exact H.
    - rewrite Forall_forall in Hlow. apply Hlow. exact Hin. }
  pose proof (getParser_ending name) as Hend.
  destruct (getParser name) as [[ | | ]|]; [| | |exact I].
  - pose proof (Hext "html"%string ltac:(cbn; auto 10) Hend) as X.
    unfold getLanguage, GetFileIcon. rewrite X. split; reflexivity.
  - pose proof (Hext "css"%string ltac:(cbn; auto 10) Hend) as X.
    unfold getLanguage, GetFileIcon. rewrite X. split; reflexivity.
  - destruct Hend as [H|[H|[H|H]]].
    + pose proof (Hext "js"%string ltac:(cbn; auto 10) H) as X.
      unfold getLanguage, GetFileIcon. rewrite X. left. split; reflexivity.
    + pose proof (Hext "jsx"%string ltac:(cbn; auto 10) H) as X.
      unfold getLanguage, GetFileIcon. rewrite X. left. split; reflexivity.
    + pose proof (Hext "ts"%string ltac:(cbn; auto 10) H) as X.
      unfold getLanguage, GetFileIcon. rewrite X. right. split; reflexivity.
    + pose proof (Hext "tsx"%string ltac:(cbn; auto 10) H) as X.
      unfold getLanguage, GetFileIcon. rewrite X. right. split; reflexivity.
Qed.

Lemma editor_agrees_with_formatter_witness :
  getLanguage asciiLowerCase (lit "index.html") = lit "html" /\
  GetFileIcon asciiLowerCase (lit "index.html") = HtmlOrange.
Proof.
  apply (editor_agrees_with_formatter asciiLowerCase (lit "index.html")).
  repeat constructor.
Defined.

(* ===================================================================== *)
(** ** Speech recognition *)
(* ===================================================================== *)

Lemma startCalls_app (xs ys : list ServiceCall) :
  startCalls (xs ++ ys) = startCalls xs + startCalls ys.
Proof. unfold startCalls. rewrite filter_app, length_app. reflexivity. Qed.

Lemma speechStep_stopped (h : Speech) (e : SpeechEvent) :
  userStoppedRef h = true ->
  isUserStart e = false ->
  userStoppedRef (fst (speechStep h e)) = true /\
  startCalls (snd (speechStep h e)) + pendingRestarts (fst (speechStep h e))
    <= pendingRestarts h.
Proof.
  intros Hs He. destruct h as [l t r u a n]. cbn in Hs. subst u.
  destruct e as [supported| | |error|results|startThrows| | |];
    try discriminate;
    unfold speechStep, onstart, onend, onerror, onresult, restart,
      stopListening, mount, cleanup, startCalls;
    cbn [isListening transcript recognitionRef userStoppedRef handlersSet
         pendingRestarts];
    repeat match goal with
           | |- context [if ?b then _ else _] => destruct b
           | |- context [match ?n with 0 => _ | S _ => _ end] => destruct n
           end;
    cbn; split; (reflexivity || lia).
Qed.

(** X6.  Once the hook has marked the recognition as stopped (by
    [stopListening], by a fatal error, by a failed restart or by the
    cleanup), it stays so until [startListening] is called, no [onend]
    schedules a restart any more, and the service is started at most once
    for each restart that was already pending. *)
Theorem no_restart_once_stopped (events : list SpeechEvent) (h : Speech) :
  userStoppedRef h = true ->
  forallb (fun e => negb (isUserStart e)) events = true ->
  userStoppedRef (fst (speechRun events h)) = true /\
  startCalls (snd (speechRun events h))
    + pendingRestarts (fst (speechRun events h)) <= pendingRestarts h.
Proof.
  revert h. induction events as [|e events IH]; intros h Hs Hev.
  - cbn. split; [assumption | lia].
  - cbn [forallb] in Hev. apply andb_true_iff in Hev. destruct Hev as [He Hev].
    apply negb_true_iff in He.
    destruct (speechStep_stopped h e Hs He) as [H1 H2].
    destruct (IH (fst (speechStep h e)) H1 Hev) as [H3 H4].
    cbn [speechRun fst snd]. split; [exact H3|].
    rewrite startCalls_app. lia.
Qed.

Lemma no_restart_once_stopped_witness :
  let stopped := fst (speechStep hearing UserStop) in
  let events := [ServiceEnded; RestartDue false; ServiceError (lit "network");
                 ServiceEnded; RestartDue false] in
  userStoppedRef (fst (speechRun events stopped)) = true /\
  startCalls (snd (speechRun events stopped))
    + pendingRestarts (fst (speechRun events stopped)) <= 0.
Proof.
  intros stopped events.
  apply (no_restart_once_stopped events stopped); reflexivity.
Defined.

Lemma recoverable_iff (error : jsstring) :
  recoverable error = true <->
  error = lit "no-speech" \/ error = lit "audio-capture"
  \/ error = lit "network".
Proof.
  unfold recoverable. rewrite !orb_true_iff, !str_eqb_eq. tauto.
Qed.

(** X7.  An error followed by the end of the service, while the handlers
    are set and the user has not stopped: after [no-speech],
    [audio-capture] or [network] one restart is scheduled and the hook
    keeps trying; after any other error none is scheduled and the hook is
    marked as stopped.  In both cases it shows as not listening. *)
Theorem error_then_end (h : Speech) (error : jsstring) :
  handlersSet h = true ->
  userStoppedRef h = false ->
  let after := fst (speechRun [ServiceError error; ServiceEnded] h) in
  isListening after = false /\
  snd (speechRun [ServiceError error; ServiceEnded] h) = [] /\
  (error = lit "no-speech" \/ error = lit "audio-capture"
   \/ error = lit "network" ->
     pendingRestarts after = S (pendingRestarts h) /\
     userStoppedRef after = false) /\
  (error <> lit "no-speech" /\ error <> lit "audio-capture"
   /\ error <> lit "network" ->
     pendingRestarts after = pendingRestarts h /\
     userStoppedRef after = true).
Proof.
  intros Ha Hu after. subst after.
  destruct h as [l t r u a n]. cbn in Ha, Hu. subst a u.
  cbn [speechRun speechStep fst snd handlersSet app].
  unfold onerror. destruct (recoverable error) eqn:E.
  - cbn. split; [reflexivity|]. split; [reflexivity|]. split.
    + intros _. split; reflexivity.
    + intros [H1 [H2 H3]]. apply recoverable_iff in E. tauto.
  - cbn. split; [reflexivity|]. split; [reflexivity|]. split.
    + intros H. apply recoverable_iff in H. congruence.
    + intros _. split; reflexivity.
Qed.

Lemma error_then_end_witness :
  let after :=
    fst (speechRun [ServiceError (lit "not-allowed"); ServiceEnded] hearing) in
  pendingRestarts after = 0 /\ userStoppedRef after = true.
Proof.
  intros after.
  destruct (error_then_end hearing (lit "not-allowed") eq_refl eq_refl)
    as [_ [_ [_ Hfatal]]].
  apply Hfatal. repeat split; discriminate.
Defined.

(** X8.  After the service has stopped on its own, [stopListening] does
    nothing, because the hook shows as not listening: the restart that
    is pending still starts the service, and the hook keeps restarting
    it. *)
Theorem stop_cannot_cancel_restart (h : Speech) :
  recognitionRef h = true ->
  handlersSet h = true ->
  userStoppedRef h = false ->
  let ended := fst (speechStep h ServiceEnded) in
  speechStep ended UserStop = (ended, []) /\
  snd (speechStep ended (RestartDue false)) = [CallStart] /\
  userStoppedRef (fst (speechRun [UserStop; RestartDue false] ended)) = false.
Proof.
  intros Hr Ha Hu ended. subst ended.
  destruct h as [l t r u a n]. cbn in Hr, Ha, Hu. subst r a u.
  cbn. repeat split; reflexivity.
Qed.

Lemma stop_cannot_cancel_restart_witness :
  let ended := fst (speechStep hearing ServiceEnded) in
  snd (speechRun [UserStop; RestartDue false] ended) = [CallStart].
Proof.
  intros ended.
  destruct (stop_cannot_cancel_restart hearing eq_refl eq_refl eq_refl)
    as [Hstop [Hstart _]].
  fold ended in Hstop, Hstart.
  cbn [speechRun fst snd]. rewrite Hstop. cbn [fst snd app].
  rewrite Hstart. reflexivity.
Defined.

Lemma speechStep_unsupported (h : Speech) (e : SpeechEvent) :
  mountsService e = false ->
  recognitionRef h = false -> handlersSet h = false ->
  isListening h = false -> transcript h = [] ->
  let r := speechStep h e in
  recognitionRef (fst r) = false /\ handlersSet (fst r) = false /\
  isListening (fst r) = false /\ transcript (fst r) = [] /\ snd r = [].
Proof.
  intros He Hr Ha Hl Ht. destruct h as [l t r u a n].
  cbn in Hr, Ha, Hl, Ht. subst r a l t.
  destruct e as [[|]| | |error|results|b| | |]; try discriminate;
    cbn; try (repeat split; reflexivity).
  destruct n; cbn; repeat split; reflexivity.
Qed.

(** X9.  In a browser without speech recognition the hook never shows as
    listening, never has a transcript and never calls the service,
    whatever the user does. *)
Theorem unsupported_browser_is_inert (events : list SpeechEvent) :
  forallb (fun e => negb (mountsService e)) events = true ->
  isListening (fst (speechRun events unmounted)) = false /\
  transcript (fst (speechRun events unmounted)) = [] /\
  snd (speechRun events unmounted) = [].
Proof.
  assert (H : forall h,
    forallb (fun e => negb (mountsService e)) events = true ->
    recognitionRef h = false -> handlersSet h = false ->
    isListening h = false -> transcript h = [] ->
    isListening (fst (speechRun events h)) = false /\
    transcript (fst (speechRun events h)) = [] /\
    snd (speechRun events h) = []).
  { induction events as [|e events IH]; intros h Hev Hr Ha Hl Ht.
    - cbn. auto.
    - cbn [forallb] in Hev. apply andb_true_iff in Hev.
      destruct Hev as [He Hev]. apply negb_true_iff in He.
      destruct (speechStep_unsupported h e He Hr Ha Hl Ht)
        as [H1 [H2 [H3 [H4 H5]]]].
      destruct (IH (fst (speechStep h e)) Hev H1 H2 H3 H4) as [H6 [H7 H8]].
      cbn [speechRun fst snd]. rewrite H5, H8. auto. }
  intros Hev. apply H; [assumption | reflexivity..].
Qed.

Lemma unsupported_browser_is_inert_witness :
  snd (speechRun [Mounted false; UserStart; UserStop; Unmounted] unmounted)
    = [].
Proof.
  apply (unsupported_browser_is_inert
           [Mounted false; UserStart; UserStop; Unmounted]).
  reflexivity.
Defined.

(* ===================================================================== *)
(** ** Editing, creating and deleting files *)
(* ===================================================================== *)

Lemma NoDup_snoc {A : Type} (l : list A) (x : A) :
  NoDup l -> ~ In x l -> NoDup (l ++ [x]).
Proof.
  intros Hl Hx. apply NoDup_app.
  - exact Hl.
  - constructor; [intros [] | constructor].
  - intros a Ha [<-|[]]. contradiction.
Qed.

Lemma replace_content_names (active text : jsstring) (fs : list FileData) :
  map fileName (replace_content active text fs) = map fileName fs.
Proof.
  unfold replace_content. rewrite map_map. apply map_ext.
  intros f. destruct (str_eqb (fileName f) active); reflexivity.
Qed.

Lemma replace_content_absent (active text : jsstring) (fs : list FileData) :
  ~ In active (map fileName fs) -> replace_content active text fs = fs.
Proof.
  intros H. unfold replace_content. rewrite <- (map_id fs) at 2.
  apply map_ext_in. intros f Hf.
  destruct (str_eqb (fileName f) active) eqn:E; [|reflexivity].
  apply str_eqb_eq in E. exfalso. apply H. rewrite <- E.
  apply in_map. exact Hf.
Qed.

(** X10.  An edit replaces the content of the entries that bear the
    active name and changes nothing else: names, order, number of entries,
    the other entries and the active name are kept.  When no entry bears
    the active name, or when the editor reports [undefined], the edit is
    dropped. *)
Theorem edit_changes_active_only (st : App) (text : jsstring) :
  let active := activeFileName st in
  let st' := render (handleContentChange (Some text) st) in
  map fileName (files st') = map fileName (files (render st)) /\
  (forall i f, nth_error (files (render st)) i = Some f ->
     (fileName f = active ->
        nth_error (files st') i = Some (mkFile active text)) /\
     (fileName f <> active -> nth_error (files st') i = Some f)) /\
  (~ In active (map fileName (files (render st))) ->
     files st' = files (render st)) /\
  activeFileName st' = activeFileName (render st) /\
  handleContentChange None st = st.
Proof.
  intros active st'. subst st'. unfold handleContentChange. fold active.
  rewrite files_render_setFiles, active_render_setFiles. cbn [fst snd].
  split; [apply replace_content_names|]. split; [|split; [|split]].
  - intros i f Hf. unfold replace_content. rewrite nth_error_map, Hf.
    cbn [option_map]. split; intros H.
    + apply str_eqb_eq in H. rewrite H. apply str_eqb_eq in H.
      rewrite H. reflexivity.
    + apply str_eqb_neq in H. rewrite H. reflexivity.
  - apply replace_content_absent.
  - reflexivity.
  - reflexivity.
Qed.

Lemma edit_changes_active_only_witness :
  nth_error (files (render (handleContentChange (Some (lit "p{}")) workspace)))
            1 = Some (mkFile (lit "style.css") (lit "p{}")).
Proof.
  destruct (edit_changes_active_only workspace (lit "p{}")) as [_ [H _]].
  apply (H 1 (mkFile (lit "style.css")
                (content (nth 1 DEFAULT_FILES (mkFile [] []))))).
  - reflexivity.
  - reflexivity.
Defined.

Lemma filter_absent (name : jsstring) (fs : list FileData) :
  ~ In name (map fileName fs) ->
  filter (fun f => negb (str_eqb (fileName f) name)) fs = fs.
Proof.
  intros H. apply forallb_filter_id. apply forallb_forall. intros f Hf.
  apply negb_true_iff. apply str_eqb_neq. intros E. apply H.
  rewrite <- E. apply in_map. exact Hf.
Qed.

Lemma render_handleCreateFile (name : jsstring) (st : App) :
  queue st = [] ->
  files (render (handleCreateFile name st)) = files st ++ [mkFile name []] /\
  activeFileName (render (handleCreateFile name st)) = name /\
  queue (render (handleCreateFile name st)) = [].
Proof.
  intros Hq. unfold handleCreateFile, render, setActiveFileName, setFiles.
  cbn [files queue vars activeFileName]. rewrite Hq. auto.
Qed.

(** X11.  Deleting a name that no entry bears leaves the file set as it
    is.  Creating a file under a new name and deleting it again gives the
    file set back, but not the selection: the first file is active
    afterwards, or none when the set is empty. *)
Theorem create_then_delete (st : App) (name : jsstring) :
  queue st = [] ->
  ~ In name (map fileName (files st)) ->
  let created := render (handleCreateFile name st) in
  let deleted := render (handleDeleteFile name created) in
  files (render (handleDeleteFile name st)) = files st /\
  files deleted = files st /\
  activeFileName deleted =
    match files st with [] => [] | f :: _ => fileName f end.
Proof.
  intros Hq Hnew created deleted.
  destruct (render_handleCreateFile name st Hq) as [Hf [Ha Hq']].
  fold created in Hf, Ha, Hq'.
  assert (Hfilter :
    filter (fun f => negb (str_eqb (fileName f) name)) (files created)
    = files st).
  { rewrite Hf, filter_app. cbn [filter fileName].
    rewrite str_eqb_refl. cbn [negb]. rewrite app_nil_r.
    apply filter_absent. exact Hnew. }
  split; [|split].
  - destruct (render_handleDeleteFile name st) as [H _]. cbn zeta in H.
    rewrite H, (proj1 (render_idle st Hq)). apply filter_absent. exact Hnew.
  - subst deleted.
    destruct (render_handleDeleteFile name created) as [H _]. cbn zeta in H.
    rewrite H, (proj1 (render_idle created Hq')). exact Hfilter.
  - subst deleted.
    destruct (render_handleDeleteFile name created) as [_ H]. cbn zeta in H.
    rewrite H, Ha, str_eqb_refl, (proj1 (render_idle created Hq')), Hfilter.
    apply firstFileName_eq.
Qed.

Lemma create_then_delete_witness :
  let created := render (handleCreateFile (lit "app.js") workspace) in
  let deleted := render (handleDeleteFile (lit "app.js") created) in
  files deleted = DEFAULT_FILES /\ activeFileName deleted = lit "index.html".
Proof.
  intros created deleted.
  assert (Hnew : ~ In (lit "app.js") (map fileName (files workspace))).
  { vm_compute. intros H.
    repeat (destruct H as [H|H]; [discriminate H|]). exact H. }
  destruct (create_then_delete workspace (lit "app.js") eq_refl Hnew)
    as [_ [Hfiles Hactive]].
  split; [exact Hfiles | exact Hactive].
Defined.

(** X12.  [createFile] never makes two names that differ in case only:
    from a file set without such a pair, the file set after a creation,
    accepted or refused, has none either. *)
Theorem createFile_keeps_names_distinct
    (toLowerCase : jsstring -> jsstring) (st : App) (typed : jsstring) :
  queue st = [] ->
  distinctIgnoringCase toLowerCase (files st) ->
  distinctIgnoringCase toLowerCase
    (files (render (fst (createFile toLowerCase typed st)))).
Proof.
  intros Hq Hd. unfold createFile, NewFileModal_handleSubmit.
  destruct (truthy (trim typed)); cbn [negb fst];
    [|rewrite (proj1 (render_idle st Hq)); exact Hd].
  destruct (some _ (map fileName (files st))) eqn:E; cbn [fst];
    [rewrite (proj1 (render_idle st Hq)); exact Hd|].
  rewrite (proj1 (render_handleCreateFile (trim typed) st Hq)).
  unfold distinctIgnoringCase in *. rewrite map_app. cbn [map fileName].
  apply NoDup_snoc; [exact Hd|].
  intros Hin. apply in_map_iff in Hin. destruct Hin as [f [Hf Hin]].
  assert (Hex : exists g, In g (files st) /\
                  toLowerCase (fileName g) = toLowerCase (trim typed))
    by (exists f; auto).
  apply some_lower_name in Hex. congruence.
Qed.

Lemma createFile_keeps_names_distinct_witness :
  distinctIgnoringCase asciiLowerCase
    (files (render (fst (createFile asciiLowerCase (lit "INDEX.html")
                           workspace)))).
Proof.
  apply (createFile_keeps_names_distinct asciiLowerCase workspace
           (lit "INDEX.html") eq_refl).
  unfold distinctIgnoringCase. vm_compute.
  repeat constructor; intros H;
    repeat (destruct H as [H|H]; [discriminate H|]); exact H.
Defined.

(** X13.  The reconciliation effect settles in one run: running it again
    changes nothing, although it writes the very state it depends on. *)
Theorem reconcile_idempotent (st : App) :
  reconcile (reconcile st) = reconcile st.
Proof.
  destruct (in_dec (list_eq_dec N.eq_dec) (activeFileName st)
              (map fileName (files st))) as [Hin|Hout].
  - rewrite (reconcile_kept st Hin). apply reconcile_kept. exact Hin.
  - rewrite (reconcile_reset st Hout). rewrite firstFileName_eq.
    destruct (files st) as [|f fs] eqn:E.
    + unfold reconcile. cbn [setActiveFileName files activeFileName].
      rewrite E. reflexivity.
    + apply reconcile_kept. cbn [setActiveFileName files activeFileName].
      rewrite E. left. reflexivity.
Qed.

(* ===================================================================== *)
(** ** Invariants of a generation *)
(* ===================================================================== *)

Lemma rendersTo_setFiles (P : list FileData -> Prop) (u : Updater) (st : App) :
  (forall env prev, P prev -> P (fst (u env prev))) ->
  rendersTo P st -> rendersTo P (setFiles u st).
Proof.
  intros Hu Hst env active. unfold setFiles. cbn [queue files].
  rewrite flush_snoc. unfold apply_updater. cbn [fst]. apply Hu, Hst.
Qed.

Lemma rendersTo_render (P : list FileData -> Prop) (st : App) :
  rendersTo P st -> rendersTo P (render st).
Proof.
  intros Hst env active. cbn [render queue files flush fold_left fst].
  apply Hst.
Qed.

Lemma rendersTo_files (P : list FileData -> Prop) (st : App) :
  rendersTo P st -> P (files (render st)).
Proof. intros Hst. apply Hst. Qed.

Lemma rendersTo_startGeneration (P : list FileData -> Prop) (st : App) :
  P [] -> rendersTo P (startGeneration st).
Proof.
  intros HP env active. unfold startGeneration, setFilesTo, setFiles.
  cbn [set_vars queue files setError setIsLoading].
  rewrite flush_snoc. exact HP.
Qed.

Lemma process_line_rendersTo (P : list FileData -> Prop)
    (line : jsstring) (st : App) :
  demuxStable P -> rendersTo P st -> rendersTo P (process_line line st).
Proof.
  intros [Hadd Happ] Hst. unfold process_line.
  destruct (startsWith MARKER line).
  - destruct (truthy _) eqn:E; [|exact Hst].
    apply truthy_true in E.
    assert (H : rendersTo P
              (setFiles (markerUpdater
                           (trim (substring_from (length MARKER) line)))
                 (set_currentFileName
                    (Some (trim (substring_from (length MARKER) line))) st))).
    { apply rendersTo_setFiles.
      - intros env prev Hp. apply Hadd; assumption.
      - exact Hst. }
    exact H.
  - destruct (truthy_opt _); [|exact Hst].
    apply rendersTo_setFiles; [|exact Hst].
    intros env prev Hp. apply Happ. exact Hp.
Qed.

Lemma drain_rendersTo (P : list FileData -> Prop) (st : App) :
  demuxStable P -> rendersTo P st -> rendersTo P (drain st).
Proof.
  intros HP.
  remember (length (buffer (vars st))) as n eqn:Hn.
  revert st Hn. induction n as [n IH] using lt_wf_ind. intros st Hn Hst.
  rewrite drain_loop.
  destruct (indexOf [NEWLINE] (buffer (vars st))) as [i|] eqn:Ei;
    [|exact Hst].
  pose proof (indexOf_newline_lt _ _ Ei) as Hi.
  eapply IH; [| reflexivity |].
  - rewrite process_line_buffer, buffer_set_buffer.
    unfold substring_from. rewrite length_skipn. lia.
  - apply process_line_rendersTo; [exact HP | exact Hst].
Qed.

Lemma consume_rendersTo (P : list FileData -> Prop)
    (events : list Event) (st : App) :
  demuxStable P -> rendersTo P st -> rendersTo P (consume events st).
Proof.
  intros HP. revert st. induction events as [|e events IH]; intros st Hst;
    [exact Hst|].
  change (consume (e :: events) st) with (consume events (step st e)).
  apply IH. destruct e as [text|]; cbn [step].
  - unfold feed. apply drain_rendersTo; [exact HP | exact Hst].
  - apply rendersTo_render. exact Hst.
Qed.

Lemma handleSubmit_rendersTo (P : list FileData -> Prop)
    (events : list Event) (ending : option Thrown) (st : App) :
  demuxStable P -> P [] ->
  negb (truthy (trim (prompt st))) || isLoading st = false ->
  rendersTo P (cells (handleSubmit events ending st)).
Proof.
  intros HP Hnil Hguard. unfold handleSubmit. rewrite Hguard.
  cbn [cells].
  pose proof (consume_rendersTo P events (startGeneration st) HP
                (rendersTo_startGeneration P st Hnil)) as H.
  destruct ending as [e|]; [exact H|].
  unfold finish. destruct (_ && _); [|exact H].
  assert (H' : rendersTo P
                 (setFiles remainderUpdater
                    (consume events (startGeneration st)))).
  { apply rendersTo_setFiles; [|exact H].
    intros env prev Hp. apply (proj2 HP). exact Hp. }
  exact H'.
Qed.

Lemma commit_handleSubmit (events : list Event) (ending : option Thrown)
    (st : App) :
  negb (truthy (trim (prompt st))) || isLoading st = false ->
  commit (handleSubmit events ending st) =
  Blank (files (render (cells (handleSubmit events ending st)))).
Proof.
  intros Hguard. unfold handleSubmit. rewrite Hguard. reflexivity.
Qed.

Lemma append_to_names (o : option jsstring) (text : jsstring)
    (fs : list FileData) :
  map fileName (append_to o text fs) = map fileName fs.
Proof.
  unfold append_to. rewrite map_map. apply map_ext.
  intros f. destruct (named_by o f); reflexivity.
Qed.

Lemma properNames_stable : demuxStable properNames.
Proof.
  split.
  - intros n prev Hn [Hd He]. unfold add_if_absent.
    destruct (some _ prev) eqn:E; [split; assumption|].
    assert (Hout : ~ In n (map fileName prev)).
    { intros Hin. apply some_fileName in Hin. congruence. }
    unfold properNames. rewrite map_app. cbn [map fileName]. split.
    + apply NoDup_snoc; assumption.
    + intros Hin. apply in_app_or in Hin. destruct Hin as [Hin|[Hin|[]]].
      * contradiction.
      * congruence.
  - intros o text prev Hp. unfold properNames.
    rewrite append_to_names. exact Hp.
Qed.

(** X14.  Whatever the stream holds, the file set on the screen at any
    render during a generation has no two entries with the same name and
    no entry with an empty name; and however the stream ends, the same
    holds of the file set that the final render hands to the formatting
    pass. *)
Theorem generated_names_are_proper (events : list Event) (st : App) :
  properNames (files (render (consume events (startGeneration st)))) /\
  (forall ending,
     negb (truthy (trim (prompt st))) || isLoading st = false ->
     exists handed,
       commit (handleSubmit events ending st) = Blank handed /\
       properNames handed).
Proof.
  assert (Hnil : properNames []) by (split; [constructor | intros []]).
  split.
  - apply rendersTo_files. apply consume_rendersTo.
    + exact properNames_stable.
    + apply rendersTo_startGeneration. exact Hnil.
  - intros ending Hguard. eexists. split.
    + apply commit_handleSubmit. exact Hguard.
    + apply rendersTo_files. apply handleSubmit_rendersTo.
      * exact properNames_stable.
      * exact Hnil.
      * exact Hguard.
Qed.

Lemma generated_names_are_proper_witness :
  exists handed,
    commit (handleSubmit (inOneChunk (sampleStream ++ sampleStream))
              None idle) = Blank handed /\
    properNames handed.
Proof.
  apply (proj2 (generated_names_are_proper
                  (inOneChunk (sampleStream ++ sampleStream)) idle) None).
  reflexivity.
Defined.

(* --------------------------------------------------------------------- *)
(** *** The buffer between chunks *)

Lemma drain_buffer (st : App) :
  indexOf [NEWLINE] (buffer (vars (drain st))) = None.
Proof.
  remember (length (buffer (vars st))) as n eqn:Hn.
  revert st Hn. induction n as [n IH] using lt_wf_ind. intros st Hn.
  rewrite drain_loop.
  destruct (indexOf [NEWLINE] (buffer (vars st))) as [i|] eqn:Ei;
    [|exact Ei].
  pose proof (indexOf_newline_lt _ _ Ei) as Hi.
  eapply IH; [|reflexivity].
  rewrite process_line_buffer, buffer_set_buffer.
  unfold substring_from. rewrite length_skipn. lia.
Qed.

Lemma no_newline (s : jsstring) :
  indexOf [NEWLINE] s = None -> ~ In NEWLINE s.
Proof.
  intros H Hin. apply in_split in Hin. destruct Hin as [l1 [l2 Hs]].
  exact (indexOf_None _ _ H l1 l2 Hs).
Qed.

(** X15.  After every chunk the buffer holds no newline: all complete
    lines have been processed.  So it holds none whenever a generation
    waits for its stream, and what [finish] appends is a partial
    line. *)
Theorem buffer_holds_no_complete_line :
  (forall chunk st, ~ In NEWLINE (buffer (vars (feed chunk st)))) /\
  (forall events st,
     ~ In NEWLINE (buffer (vars (consume events (startGeneration st))))).
Proof.
  assert (Hfeed : forall chunk st, ~ In NEWLINE (buffer (vars (feed chunk st)))).
  { intros chunk st. apply no_newline. unfold feed. apply drain_buffer. }
  split; [exact Hfeed|].
  intros events st.
  assert (H : forall s, ~ In NEWLINE (buffer (vars s)) ->
                        ~ In NEWLINE (buffer (vars (consume events s)))).
  { induction events as [|e events IH]; intros s Hs; [exact Hs|].
    change (consume (e :: events) s) with (consume events (step s e)).
    apply IH. destruct e as [text|]; cbn [step]; [apply Hfeed | exact Hs]. }
  apply H. intros [].
Qed.

(* --------------------------------------------------------------------- *)
(** *** A response without a marker *)

Lemma occurs_app_l (pat x y : jsstring) : occurs pat x -> occurs pat (x ++ y).
Proof.
  intros [b [a ->]]. exists b, (a ++ y). rewrite <- !app_assoc. reflexivity.
Qed.

Lemma occurs_app_r (pat x y : jsstring) : occurs pat y -> occurs pat (x ++ y).
Proof.
  intros [b [a ->]]. exists (x ++ b), a. rewrite <- !app_assoc. reflexivity.
Qed.

Lemma startsWith_occurs (pat s : jsstring) :
  startsWith pat s = true -> occurs pat s.
Proof.
  intros H. exists [], (skipn (length pat) s). apply startsWith_split. exact H.
Qed.

Lemma set_buffer_same (st : App) : set_buffer (buffer (vars st)) st = st.
Proof. destruct st as [p f a l e q [cur buf]]. reflexivity. Qed.

(** Without a target and without a marker in the buffer, the loop only
    consumes the buffer. *)
Lemma drain_no_marker (st : App) :
  currentFileName (vars st) = None ->
  ~ occurs MARKER (buffer (vars st)) ->
  exists consumed,
    buffer (vars st) = consumed ++ buffer (vars (drain st)) /\
    drain st = set_buffer (buffer (vars (drain st))) st.
Proof.
  remember (length (buffer (vars st))) as n eqn:Hn.
  revert st Hn. induction n as [n IH] using lt_wf_ind. intros st Hn Hcur Hno.
  rewrite drain_loop.
  destruct (indexOf [NEWLINE] (buffer (vars st))) as [i|] eqn:Ei.
  - pose proof (indexOf_newline_lt _ _ Ei) as Hi.
    set (line := substring 0 i (buffer (vars st))).
    set (rest := substring_from (i + 1) (buffer (vars st))).
    assert (Hsplit : buffer (vars st) = firstn (i + 1) (buffer (vars st)) ++ rest).
    { symmetry. apply firstn_skipn. }
    assert (Hline : startsWith MARKER line = false).
    { destruct (startsWith MARKER line) eqn:E; [|reflexivity].
      exfalso. apply Hno. apply startsWith_occurs.
      rewrite <- (firstn_skipn i (buffer (vars st))).
      apply startsWith_app_r.
      unfold line, substring in E. rewrite Nat.sub_0_r in E. exact E. }
    assert (Hstep : process_line line (set_buffer rest st) = set_buffer rest st).
    { unfold process_line. rewrite Hline.
      cbn [set_buffer set_vars vars currentFileName]. rewrite Hcur.
      reflexivity. }
    rewrite Hstep.
    destruct (IH (length rest)) with (st := set_buffer rest st)
      as [consumed [Hc Hd]].
    + subst rest n. unfold substring_from. rewrite length_skipn. lia.
    + reflexivity.
    + exact Hcur.
    + cbn [set_buffer set_vars vars buffer]. intros Hocc. apply Hno.
      rewrite Hsplit. apply occurs_app_r. exact Hocc.
    + rewrite buffer_set_buffer in Hc.
      exists (firstn (i + 1) (buffer (vars st)) ++ consumed). split.
      * rewrite <- app_assoc, <- Hc. exact Hsplit.
      * rewrite Hd at 1. apply set_buffer_set_buffer.
  - exists []. split; [reflexivity|]. symmetry. apply set_buffer_same.
Qed.

Lemma rendersTo_set_buffer (P : list FileData -> Prop) (b : jsstring)
    (st : App) :
  rendersTo P st -> rendersTo P (set_buffer b st).
Proof. intros H env active. apply H. Qed.

Lemma consume_no_marker (events : list Event) (st : App) :
  currentFileName (vars st) = None ->
  ~ occurs MARKER (buffer (vars st) ++ textOf events) ->
  rendersTo (fun fs => fs = []) st ->
  currentFileName (vars (consume events st)) = None /\
  rendersTo (fun fs => fs = []) (consume events st).
Proof.
  revert st. induction events as [|e events IH]; intros st Hcur Hno Hst;
    [auto|].
  change (consume (e :: events) st) with (consume events (step st e)).
  destruct e as [text|]; cbn [step].
  - cbn [textOf flat_map] in Hno. fold (textOf events) in Hno.
    rewrite app_assoc in Hno.
    destruct (drain_no_marker (set_buffer (buffer (vars st) ++ text) st))
      as [consumed [Hc Hd]].
    + exact Hcur.
    + rewrite buffer_set_buffer. intros Hocc. apply Hno.
      apply occurs_app_l. exact Hocc.
    + fold (feed text st) in Hc, Hd. rewrite buffer_set_buffer in Hc.
      rewrite set_buffer_set_buffer in Hd.
      apply IH.
      * rewrite Hd. exact Hcur.
      * intros Hocc. apply Hno. rewrite Hc, <- app_assoc.
        apply occurs_app_r. exact Hocc.
      * rewrite Hd. apply rendersTo_set_buffer. exact Hst.
  - apply IH.
    + exact Hcur.
    + exact Hno.
    + apply rendersTo_render. exact Hst.
Qed.

(** X16.  When the text of the stream holds no [>>>FILE:] at all, every
    render during the generation shows an empty file set, and the final
    render hands an empty file set to the formatting pass, however the
    stream ends: the project that was there is discarded and the whole
    response is dropped. *)
Theorem response_without_marker (events : list Event) (st : App) :
  ~ occurs MARKER (textOf events) ->
  files (render (consume events (startGeneration st))) = [] /\
  (forall ending,
     negb (truthy (trim (prompt st))) || isLoading st = false ->
     commit (handleSubmit events ending st) = Blank []).
Proof.
  intros Hno.
  destruct (consume_no_marker events (startGeneration st))
    as [Hcur Hempty].
  - reflexivity.
  - exact Hno.
  - apply rendersTo_startGeneration. reflexivity.
  - split.
    + exact (rendersTo_files _ _ Hempty).
    + intros ending Hguard. rewrite (commit_handleSubmit _ _ _ Hguard).
      f_equal. unfold handleSubmit. rewrite Hguard. cbn [cells].
      destruct ending as [e|].
      * exact (Hempty (vars (consume events (startGeneration st)))
                 (activeFileName (consume events (startGeneration st)))).
      * unfold finish. rewrite Hcur. cbn [truthy_opt andb].
        exact (Hempty (vars (consume events (startGeneration st)))
                 (activeFileName (consume events (startGeneration st)))).
Qed.

Lemma response_without_marker_witness :
  let events := [Chunk (lit "Sure! Here is"); Render;
                 Chunk (lit " a page:" ++ [NEWLINE] ++ lit "<h1>Hi</h1>")] in
  let st := setPrompt (lit "a page") workspace in
  files (render (consume events (startGeneration st))) = [] /\
  commit (handleSubmit events None st) = Blank [].
Proof.
  intros events st.
  assert (Hno : ~ occurs MARKER (textOf events)).
  { intros [before [after H]].
    assert (Hnone : indexOf MARKER (textOf events) = None) by reflexivity.
    exact (indexOf_None _ _ Hnone before after H). }
  destruct (response_without_marker events st Hno) as [H1 H2].
  split; [exact H1|]. apply H2. reflexivity.
Defined.

(* --------------------------------------------------------------------- *)
(** *** One generation at a time *)

Lemma process_line_session (line : jsstring) (st : App) :
  prompt (process_line line st) = prompt st /\
  isLoading (process_line line st) = isLoading st /\
  error (process_line line st) = error st.
Proof.
  unfold process_line.
  destruct (startsWith MARKER line);
    [destruct (truthy _) | destruct (truthy_opt _)]; auto.
Qed.

Lemma drain_session (st : App) :
  prompt (drain st) = prompt st /\
  isLoading (drain st) = isLoading st /\
  error (drain st) = error st.
Proof.
  remember (length (buffer (vars st))) as n eqn:Hn.
  revert st Hn. induction n as [n IH] using lt_wf_ind. intros st Hn.
  rewrite drain_loop.
  destruct (indexOf [NEWLINE] (buffer (vars st))) as [i|] eqn:Ei; [|auto].
  pose proof (indexOf_newline_lt _ _ Ei) as Hi.
  set (next := process_line (substring 0 i (buffer (vars st)))
                 (set_buffer (substring_from (i + 1) (buffer (vars st))) st)).
  destruct (IH (length (buffer (vars next)))) with (st := next)
    as [H1 [H2 H3]].
  - subst next n. rewrite process_line_buffer, buffer_set_buffer.
    unfold substring_from. rewrite length_skipn. lia.
  - reflexivity.
  - subst next.
    destruct (process_line_session (substring 0 i (buffer (vars st)))
                (set_buffer (substring_from (i + 1) (buffer (vars st))) st))
      as [H4 [H5 H6]].
    rewrite H1, H2, H3, H4, H5, H6. auto.
Qed.

Lemma consume_session (events : list Event) (st : App) :
  prompt (consume events st) = prompt st /\
  isLoading (consume events st) = isLoading st /\
  error (consume events st) = error st.
Proof.
  revert st. induction events as [|e events IH]; intros st; [auto|].
  change (consume (e :: events) st) with (consume events (step st e)).
  destruct (IH (step st e)) as [H1 [H2 H3]]. rewrite H1, H2, H3.
  destruct e as [text|]; cbn [step]; [|auto].
  apply (drain_session (set_buffer (buffer (vars st) ++ text) st)).
Qed.

(** X17.  While a generation runs the loading flag is on, the prompt is
    the one submitted and no error message is set; a second submission
    then changes nothing, whatever stream it would get: it leaves the
    cells and the queue as they are, queues no formatting pass, and the
    render that follows shows the running generation. *)
Theorem one_generation_at_a_time (events : list Event) (st : App) :
  let running := consume events (startGeneration st) in
  isLoading running = true /\
  prompt running = prompt st /\
  error running = None /\
  (forall events' ending',
     handleSubmit events' ending' running = mkSubmitted running false /\
     commit (handleSubmit events' ending' running) =
       Displayed (render running)).
Proof.
  intros running.
  destruct (consume_session events (startGeneration st)) as [Hp [Hl He]].
  fold running in Hp, Hl, He.
  assert (Hrun : isLoading running = true) by (rewrite Hl; reflexivity).
  split; [exact Hrun|]. split; [rewrite Hp; reflexivity|].
  split; [rewrite He; reflexivity|].
  intros events' ending'.
  assert (H : handleSubmit events' ending' running =
              mkSubmitted running false).
  { unfold handleSubmit. rewrite Hrun, orb_true_r. reflexivity. }
  split; [exact H|]. rewrite H. reflexivity.
Qed.

(* ===================================================================== *)
(** ** What the preview depends on *)
(* ===================================================================== *)

Lemma find_app_skip {A : Type} (p : A -> bool) (a : list A) (x : A)
    (b : list A) :
  p x = false \/ existsb p a = true ->
  find p (a ++ x :: b) = find p (a ++ b).
Proof.
  intros H. induction a as [|y a IH]; cbn [app find].
  - destruct H as [H|H]; [rewrite H; reflexivity | discriminate].
  - destruct (p y) eqn:E; [reflexivity|]. apply IH.
    destruct H as [H|H]; [left; exact H|].
    cbn [existsb] in H. rewrite E in H. right. exact H.
Qed.

Lemma filter_app_skip {A : Type} (p : A -> bool) (a : list A) (x : A)
    (b : list A) :
  p x = false -> filter p (a ++ x :: b) = filter p (a ++ b).
Proof.
  intros H. rewrite !filter_app. cbn [filter]. rewrite H. reflexivity.
Qed.

(** X18.  The preview depends on the first [.html] file and on the
    [.css] and [.js] files only: a file of another kind, or a further
    [.html] file after the first, can be added or removed anywhere
    without changing it. *)
Theorem preview_ignores_other_files (a : list FileData) (f : FileData)
    (b : list FileData) :
  isCss f = false -> isJs f = false ->
  isHtml f = false \/ existsb isHtml a = true ->
  htmlContent (a ++ f :: b) = htmlContent (a ++ b).
Proof.
  intros Hcss Hjs Hhtml. unfold htmlContent, cssContent, jsContent.
  rewrite (find_app_skip isHtml a f b Hhtml).
  rewrite (filter_app_skip isCss a f b Hcss).
  rewrite (filter_app_skip isJs a f b Hjs).
  reflexivity.
Qed.

Lemma preview_ignores_other_files_witness :
  htmlContent (sampleProject ++ [mkFile (lit "old.html") (lit "<p>old</p>")])
  = htmlContent sampleProject.
Proof.
  rewrite <- (app_nil_r sampleProject) at 2.
  apply (preview_ignores_other_files sampleProject
           (mkFile (lit "old.html") (lit "<p>old</p>")) []);
    [reflexivity | reflexivity | right; reflexivity].
Defined.

(* ===================================================================== *)
(** ** What does not depend on chunks and renders *)
(* ===================================================================== *)

Lemma sameNames_sym (s1 s2 : App) : sameNames s1 s2 -> sameNames s2 s1.
Proof. intros H env1 env2 a1 a2. symmetry. apply H. Qed.

Lemma sameNames_trans (s1 s2 s3 : App) :
  sameNames s1 s2 -> sameNames s2 s3 -> sameNames s1 s3.
Proof.
  intros H12 H23 env1 env2 a1 a2.
  rewrite (H12 env1 env1 a1 a1). apply H23.
Qed.

Lemma sameNames_setFiles (u : Updater) (s1 s2 : App) :
  nameStable u -> sameNames s1 s2 ->
  sameNames (setFiles u s1) (setFiles u s2).
Proof.
  intros Hu H env1 env2 a1 a2. unfold setFiles. cbn [queue files].
  rewrite !flush_snoc. unfold apply_updater. cbn [fst]. apply Hu, H.
Qed.

Lemma sameNames_render_l (s1 s2 : App) :
  sameNames s1 s2 -> sameNames (render s1) s2.
Proof.
  intros H env1 env2 a1 a2.
  cbn [render queue files flush fold_left fst]. apply H.
Qed.

Lemma add_if_absent_names (n : jsstring) (fs : list FileData) :
  map fileName (add_if_absent n fs) =
  if in_dec (list_eq_dec N.eq_dec) n (map fileName fs)
  then map fileName fs else map fileName fs ++ [n].
Proof.
  destruct (in_dec (list_eq_dec N.eq_dec) n (map fileName fs)) as [Hin|Hout].
  - rewrite add_if_absent_present; [reflexivity | exact Hin].
  - rewrite add_if_absent_absent by exact Hout. rewrite map_app. reflexivity.
Qed.

Lemma nameStable_markerUpdater (n : jsstring) : nameStable (markerUpdater n).
Proof.
  intros env1 env2 prev1 prev2 H. cbn [markerUpdater fst].
  rewrite !add_if_absent_names, H. reflexivity.
Qed.

Lemma nameStable_lineUpdater (line : jsstring) : nameStable (lineUpdater line).
Proof.
  intros env1 env2 prev1 prev2 H. cbn [lineUpdater fst].
  rewrite !append_to_names. exact H.
Qed.

Lemma nameStable_remainderUpdater : nameStable remainderUpdater.
Proof.
  intros env1 env2 prev1 prev2 H. cbn [remainderUpdater fst].
  rewrite !append_to_names. exact H.
Qed.

Lemma process_line_inStep (line : jsstring) (s1 s2 : App) :
  inStep s1 s2 -> inStep (process_line line s1) (process_line line s2).
Proof.
  intros [Hv Hn]. unfold process_line. rewrite Hv.
  destruct (startsWith MARKER line).
  - destruct (truthy _); [|split; assumption]. split.
    + unfold setActiveFileName, setFiles, set_currentFileName, set_vars.
      cbn [vars]. rewrite Hv. reflexivity.
    + intros env1 env2 a1 a2.
      exact (sameNames_setFiles _ _ _ (nameStable_markerUpdater _) Hn
               env1 env2 a1 a2).
  - destruct (truthy_opt _); [|split; assumption]. split.
    + exact Hv.
    + apply sameNames_setFiles; [apply nameStable_lineUpdater | exact Hn].
Qed.

Lemma set_buffer_inStep (b : jsstring) (s1 s2 : App) :
  inStep s1 s2 -> inStep (set_buffer b s1) (set_buffer b s2).
Proof.
  intros [Hv Hn]. split.
  - unfold set_buffer, set_vars. cbn [vars]. rewrite Hv. reflexivity.
  - intros env1 env2 a1 a2. apply Hn.
Qed.

Lemma drain_inStep (s1 s2 : App) :
  inStep s1 s2 -> inStep (drain s1) (drain s2).
Proof.
  remember (length (buffer (vars s1))) as n eqn:Hn.
  revert s1 s2 Hn. induction n as [n IH] using lt_wf_ind.
  intros s1 s2 Hn H. pose proof (proj1 H) as Hv.
  rewrite (drain_loop s1), (drain_loop s2). rewrite <- Hv.
  destruct (indexOf [NEWLINE] (buffer (vars s1))) as [i|] eqn:Ei;
    [|exact H].
  pose proof (indexOf_newline_lt _ _ Ei) as Hi.
  eapply IH; [| reflexivity |].
  - rewrite process_line_buffer, buffer_set_buffer.
    unfold substring_from. rewrite length_skipn. lia.
  - apply process_line_inStep, set_buffer_inStep. exact H.
Qed.

Lemma feed_inStep (chunk : jsstring) (s1 s2 : App) :
  inStep s1 s2 -> inStep (feed chunk s1) (feed chunk s2).
Proof.
  intros H. unfold feed. rewrite (proj1 H).
  apply drain_inStep, set_buffer_inStep. exact H.
Qed.

Lemma inStep_trans (s1 s2 s3 : App) :
  inStep s1 s2 -> inStep s2 s3 -> inStep s1 s3.
Proof.
  intros [Hv1 Hn1] [Hv2 Hn2]. split; [congruence|].
  eapply sameNames_trans; eassumption.
Qed.

Lemma feed_nothing (st : App) :
  indexOf [NEWLINE] (buffer (vars st)) = None -> feed [] st = st.
Proof.
  intros H. unfold feed. rewrite app_nil_r, set_buffer_same.
  rewrite drain_loop, H. reflexivity.
Qed.

(** Chunks with renders in between keep in step with their text fed at
    once. *)
Lemma consume_inStep (events : list Event) (st : App) :
  inStep st st ->
  indexOf [NEWLINE] (buffer (vars st)) = None ->
  inStep (consume events st) (feed (textOf events) st).
Proof.
  revert st. induction events as [|e events IH]; intros st Hst Hbuf.
  - cbn [consume fold_left textOf flat_map]. rewrite (feed_nothing st Hbuf).
    exact Hst.
  - change (consume (e :: events) st) with (consume events (step st e)).
    destruct e as [text|]; cbn [step textOf flat_map];
      fold (textOf events).
    + rewrite feed_app. apply IH.
      * apply feed_inStep. exact Hst.
      * apply drain_buffer.
    + cbn [app]. eapply inStep_trans.
      * apply IH; [|exact Hbuf].
        split; [reflexivity|].
        apply sameNames_render_l, sameNames_sym, sameNames_render_l.
        exact (proj2 Hst).
      * apply feed_inStep. split; [reflexivity|].
        apply sameNames_render_l. exact (proj2 Hst).
Qed.

Lemma finish_inStep (s1 s2 : App) :
  inStep s1 s2 -> sameNames (finish s1) (finish s2).
Proof.
  intros [Hv Hn]. unfold finish. rewrite Hv.
  destruct (_ && _); [|exact Hn].
  apply sameNames_setFiles; [apply nameStable_remainderUpdater | exact Hn].
Qed.

(** X19.  Which files a generation creates, and in which order, depends
    on the text of the stream only: however the text is cut into chunks
    and whenever React renders, the names a render shows after the
    events are those it shows when the whole text comes in one chunk, and
    so are the names of the files that the final render hands to the
    formatting pass. *)
Theorem names_do_not_depend_on_chunks (events : list Event) (st : App) :
  map fileName (files (render (consume events (startGeneration st)))) =
  map fileName
    (files (render (consume [Chunk (textOf events)] (startGeneration st))))
  /\
  (forall ending,
     negb (truthy (trim (prompt st))) || isLoading st = false ->
     exists handed handed',
       commit (handleSubmit events ending st) = Blank handed /\
       commit (handleSubmit [Chunk (textOf events)] ending st) =
         Blank handed' /\
       map fileName handed = map fileName handed').
Proof.
  assert (Hstart : inStep (startGeneration st) (startGeneration st)).
  { split; [reflexivity|]. intros env1 env2 a1 a2.
    unfold startGeneration, setFilesTo, setFiles.
    cbn [set_vars queue files setError setIsLoading].
    rewrite !flush_snoc. reflexivity. }
  pose proof (consume_inStep events (startGeneration st) Hstart eq_refl)
    as H.
  split.
  - exact (proj2 H _ _ _ _).
  - intros ending Hguard. do 2 eexists.
    split; [apply commit_handleSubmit; exact Hguard|].
    split; [apply commit_handleSubmit; exact Hguard|].
    unfold handleSubmit. rewrite Hguard. cbn [cells].
    change (consume [Chunk (textOf events)] (startGeneration st))
      with (feed (textOf events) (startGeneration st)).
    destruct ending as [e|].
    + exact (proj2 H _ _ _ _).
    + exact (finish_inStep _ _ H _ _ _ _).
Qed.

Lemma names_do_not_depend_on_chunks_witness :
  exists handed handed',
    commit (handleSubmit (unitByUnit sampleStream) None idle) =
      Blank handed /\
    commit (handleSubmit [Chunk (textOf (unitByUnit sampleStream))] None
              idle) = Blank handed' /\
    map fileName handed = map fileName handed'.
Proof.
  apply (proj2 (names_do_not_depend_on_chunks (unitByUnit sampleStream)
                  idle) None).
  reflexivity.
Defined.

Lemma line_by_line_is_spec_witness :
  let start := render (startGeneration idle) in
  fileSet (shown (consume (lineByLine sampleLines) start)) =
    [ mkFile (lit "a.js") (lit "console.log(1);" ++ [NEWLINE]);
      mkFile (lit "b.css") (lit "body{}" ++ [NEWLINE]) ].
Proof.
  intros start.
  rewrite (line_by_line_is_spec sampleLines start).
  - vm_compute. reflexivity.
  - repeat constructor; vm_compute; intros H;
      repeat (destruct H as [H|H]; [discriminate H|]); exact H.
  - reflexivity.
  - reflexivity.
Defined.
